(** * Hyperwallet SDK: the JOSE envelope processor ([src/utils/Encryption.ts])

    A shallow embedding of the [Encryption] class and the properties of its
    specification.  The class drives three collaborators that are not part
    of the repository: the [node-jose] library, the [fs] module and the
    [superagent] HTTP client.  They appear here as interfaces ([Jose],
    [World]); the methods of the class are transcribed over them. *)

From Stdlib Require Import List String Ascii Bool Arith ZArith NArith Lia.
From Stdlib Require Import QArith Qround.
From Stdlib.Strings Require Import Byte.
From Stdlib Require DecimalString.
Import ListNotations.

Set Warnings "-register-all".

Local Open Scope string_scope.
Local Open Scope list_scope.

(* ================================================================== *)
(** * Part I: definitions *)
(* ================================================================== *)

(** ** The JavaScript run time the class relies on *)

Module JS.

(** A promise is settled at most once: [resolve] and [reject] on a promise
    that is already settled are ignored. *)
Inductive Promise (A : Type) : Type :=
| Pending
| Fulfilled (value : A)
| Rejected (message : string).

Arguments Pending {A}.
Arguments Fulfilled {A} value.
Arguments Rejected {A} message.

Definition resolve {A} (v : A) (p : Promise A) : Promise A :=
  match p with
  | Pending => Fulfilled v
  | _ => p
  end.

Definition reject {A} (msg : string) (p : Promise A) : Promise A :=
  match p with
  | Pending => Rejected msg
  | _ => p
  end.

(** The ways a call into a library ends: it returns a value (a promise
    that is fulfilled, for an asynchronous call), it returns a promise that
    is rejected, or it throws before it returns. *)
Inductive Call (A : Type) : Type :=
| Ok (value : A)
| Rejects (message : string)
| Throws (message : string).

Arguments Ok {A} value.
Arguments Rejects {A} message.
Arguments Throws {A} message.

(** [Math.round]: the nearest integer, halves going up. *)
Definition Math_round (q : Q) : Z := Qfloor (q + (1 # 2)).

(** The numbers the expiry is computed with: an integer (the integers of
    magnitude up to 2 ^ 53 are numbers of JavaScript, and sums and products
    that stay below it are exact), or [NaN]. *)
Inductive Num : Type :=
| Int (n : Z)
| NaN.

(** The largest time value of a [Date], in milliseconds. *)
Definition max_time_value : Z := 8640000000000000.

(** [new Date(t).getTime()] for an integral [t]: [t] itself when it is a
    time value, [NaN] when the date is invalid. *)
Definition new_Date_getTime (t : Z) : Num :=
  if (Z.abs t <=? max_time_value)%Z then Int t else NaN.

(** [t] is a time value: a [Date] made from it is valid. *)
Definition time_value (t : Z) : Prop := (Z.abs t <= max_time_value)%Z.

(** A number as [JSON.stringify] writes it and [>] reads it back: [NaN] is
    written as [null], and [null] compares as 0. *)
Definition written_and_compared (n : Num) : Z :=
  match n with
  | Int z => z
  | NaN => 0%Z
  end.

(** JSON values: request bodies and parsed HTTP response bodies. *)
Inductive Json : Type :=
| JNull
| JBool (b : bool)
| JNum (n : Z)
| JStr (s : string)
| JArr (items : list Json)
| JObj (members : list (string * Json)).

(** Truthiness, as the [&&] of [readKeySet] tests it. *)
Definition truthy (v : Json) : bool :=
  match v with
  | JNull => false
  | JBool b => b
  | JNum n => negb (n =? 0)%Z
  | JStr s => negb (s =? "")
  | JArr _ => true
  | JObj _ => true
  end.

(** [Object.keys(v).length]. *)
Definition Object_keys_length (v : Json) : nat :=
  match v with
  | JObj members => List.length members
  | JArr items => List.length items
  | JStr s => String.length s
  | _ => 0%nat
  end.

(** [s.split('.')]: an empty string gives one empty segment. *)
Fixpoint split_dot (s : string) : list string :=
  match s with
  | EmptyString => [EmptyString]
  | String c rest =>
      if Ascii.eqb c "."%char then EmptyString :: split_dot rest
      else match split_dot rest with
           | seg :: segs => String c seg :: segs
           | [] => [String c EmptyString]
           end
  end.

(** [l.join('.')]. *)
Fixpoint join_dot (l : list string) : string :=
  match l with
  | [] => EmptyString
  | [seg] => seg
  | seg :: segs => seg ++ String "."%char (join_dot segs)
  end.

(** [l.forEach(elem => acc.push(f(elem)))], starting from the array [acc]. *)
Definition forEach_push {A B} (f : A -> B) (l : list A) (acc : list B) : list B :=
  fold_left (fun out elem => out ++ [f elem]) l acc.

(** Substring test, used to say that a message carries a given text. *)
Fixpoint prefixb (p s : string) : bool :=
  match p, s with
  | EmptyString, _ => true
  | String a p', String b s' => Ascii.eqb a b && prefixb p' s'
  | String _ _, EmptyString => false
  end.

Fixpoint containsb (needle hay : string) : bool :=
  prefixb needle hay ||
  match hay with
  | EmptyString => false
  | String _ hay' => containsb needle hay'
  end.

End JS.

(** ** Node buffers and [jose.util.base64url] *)

Module Base64Url.

(** A [Buffer] is a sequence of octets. *)
Definition Buffer : Type := list byte.

(** [JSON.parse(JSON.stringify(buf)).data]: the octets as numbers. *)
Definition Buffer_toJSON_data (b : Buffer) : list Z :=
  map (fun o => Z.of_N (Byte.to_N o)) b.

Definition byte_of_octet (n : N) : byte :=
  match Byte.of_N (n mod 256) with
  | Some b => b
  | None => x00
  end.

(** [Buffer.from(array)]: every entry is taken modulo 256. *)
Definition Buffer_from (data : list Z) : Buffer :=
  map (fun z => byte_of_octet (Z.to_N (z mod 256))) data.

(** The URL-safe alphabet of RFC 4648, section 5. *)
Definition alphabet : list ascii :=
  list_ascii_of_string
    "ABCDEFGHIJKLMNOPQRSTUVWXYZabcdefghijklmnopqrstuvwxyz0123456789-_".

Definition sextet_char (n : N) : ascii := nth (N.to_nat n) alphabet "A"%char.

Fixpoint index_of (c : ascii) (l : list ascii) : option N :=
  match l with
  | [] => None
  | x :: tl => if Ascii.eqb c x then Some 0%N
               else option_map N.succ (index_of c tl)
  end.

(** [decode] first maps '-' to '+' and '_' to '/', so both spellings of the
    last two digits are read. *)
Definition char_sextet (c : ascii) : option N :=
  if Ascii.eqb c "+"%char then Some 62%N
  else if Ascii.eqb c "/"%char then Some 63%N
  else index_of c alphabet.

(** Three octets give four sextets; a tail of one or two octets gives two
    or three sextets, and no padding is written. *)
Fixpoint sextets_of_octets (os : list N) : list N :=
  match os with
  | a :: b :: c :: rest =>
      (a / 4 :: (a mod 4) * 16 + b / 16 :: (b mod 16) * 4 + c / 64
         :: c mod 64 :: sextets_of_octets rest)%N
  | [a; b] => [a / 4; (a mod 4) * 16 + b / 16; (b mod 16) * 4]%N
  | [a] => [a / 4; (a mod 4) * 16]%N
  | [] => []
  end.

Fixpoint octets_of_sextets (ss : list N) : list N :=
  match ss with
  | p :: q :: r :: s :: rest =>
      (p * 4 + q / 16 :: (q mod 16) * 16 + r / 4 :: (r mod 4) * 64 + s
         :: octets_of_sextets rest)%N
  | [p; q; r] => [p * 4 + q / 16; (q mod 16) * 16 + r / 4]%N
  | [p; q] => [p * 4 + q / 16]%N
  | _ => []
  end.

(** Decoding ends at the first '='; before it, characters outside the
    alphabet carry no digit and are passed over. *)
Fixpoint sextets_of_chars (cs : list ascii) : list N :=
  match cs with
  | [] => []
  | c :: tl =>
      if Ascii.eqb c "="%char then []
      else match char_sextet c with
           | Some n => n :: sextets_of_chars tl
           | None => sextets_of_chars tl
           end
  end.

(** [jose.util.base64url.encode] *)
Definition encode (b : Buffer) : string :=
  string_of_list_ascii
    (map sextet_char (sextets_of_octets (map Byte.to_N b))).

(** [jose.util.base64url.decode] *)
Definition decode (s : string) : Buffer :=
  map byte_of_octet
    (octets_of_sextets (sextets_of_chars (list_ascii_of_string s))).

End Base64Url.

(** ** The segment-wise helpers of the class *)

Record DecodedBody : Type := { parts : list Base64Url.Buffer }.

(** [Encryption.base64Decode] *)
Definition base64Decode (encryptedBody : string) : DecodedBody :=
  let parts := JS.split_dot encryptedBody in
  let decodedParts := JS.forEach_push Base64Url.decode parts [] in
  {| parts := decodedParts |}.

(** [Encryption.base64Encode] *)
Definition base64Encode (decodedBody : DecodedBody) : string :=
  let encodedParts :=
    JS.forEach_push
      (fun part =>
         Base64Url.encode
           (Base64Url.Buffer_from (Base64Url.Buffer_toJSON_data part)))
      (parts decodedBody) [] in
  JS.join_dot encodedParts.

(** ** Collaborators: node-jose, the file system, the HTTP client *)

(** What [readKeySet] resolves with and [jose.JWK.asKeyStore] receives:
    the text of a file or of a response, or a parsed response body. *)
Inductive KeySetData : Type :=
| KeySetText (text : string)
| KeySetBody (body : JS.Json).

(** The header a verifier sees: protected and unprotected fields merged. *)
Record JwsHeader : Type := {
  header_alg : string;
  header_kid : string;
  header_crit : list string;
  header_exp : option Z
}.

(** The [fields] of the options [signBody] passes to [createSign]. *)
Record SignFields : Type := {
  crit : list string;
  exp : JS.Num;
  kid : string
}.

Record SignHeader : Type := {
  sign_format : string;
  sign_alg : string;
  fields : SignFields
}.

(** The options [encryptBody] passes to [createEncrypt]. *)
Record EncryptionHeader : Type := {
  enc_format : string;
  enc_alg : string;
  enc : string;
  enc_kid : string
}.

(** [jose.JWS.VerificationResult] *)
Record VerificationResult (K : Type) : Type := {
  header : JwsHeader;
  payload : string;
  key : K
}.

Arguments header {K} _.
Arguments payload {K} _.
Arguments key {K} _.

(** The operations of [node-jose] the class calls.  [Envelope] is the
    type of compact serializations (JWS and JWE strings). *)
Class Jose : Type := {
  Key : Type;
  Envelope : Type;
  key_kid : Key -> string;
  key_alg : Key -> string;
  (** [jose.JWK.asKeyStore(jwkSet)] *)
  JWK_asKeyStore : KeySetData -> JS.Call (list Key);
  (** [jose.JWK.asKey(rawKey)] *)
  JWK_asKey : Key -> JS.Call Key;
  (** [jose.JWS.createSign(header, key).update(text, 'utf8').final()] *)
  JWS_createSign : SignHeader -> Key -> string -> JS.Call Envelope;
  (** [jose.JWS.createVerify(key, {handlers}).verify(text)], first stage:
      the envelope is parsed and its critical extensions are matched
      against the handlers; [Ok h] when the verifier goes on to run the
      handlers on the signature with header [h] *)
  JWS_parse : Envelope -> JS.Call JwsHeader;
  (** last stage, inside the promise of [verify]: the signature check;
      [None] when that promise is rejected *)
  JWS_check : Key -> Envelope -> option (VerificationResult Key);
  (** [jose.JWE.createEncrypt(header, key).update(body).final()] *)
  JWE_createEncrypt :
    EncryptionHeader -> Key -> Envelope -> JS.Call Envelope;
  (** [jose.JWE.createDecrypt(key).decrypt(body)], then
      [.plaintext.toString()] *)
  JWE_createDecrypt : Key -> Envelope -> JS.Call Envelope;
  JSON_stringify : JS.Json -> string
}.

(** [superagent]'s response *)
Record Response : Type := {
  status : Z;
  body : JS.Json;
  text : string
}.

(** The environment of one call: the file system, the network and the
    clock. *)
Record World : Type := {
  (** [fs.existsSync(path)] *)
  fs_existsSync : string -> bool;
  (** [fs.readFile(path, {encoding: 'utf-8'}, cb)]: the data, or
      [err.message] *)
  fs_readFile : string -> string + string;
  (** [request(url)]: the response, or [None] when the promise rejects *)
  request : string -> option Response;
  (** [new Date().getTime()], in milliseconds *)
  Date_getTime : Z
}.

(** What a call does to its environment, in program order. *)
Inductive Event : Type :=
| FsExists (path : string)
| FsReadFile (path : string)
| HttpGet (url : string)
| UnhandledRejection (message : string).

Definition is_network (e : Event) : bool :=
  match e with HttpGet _ => true | _ => false end.

Definition is_filesystem (e : Event) : bool :=
  match e with FsExists _ | FsReadFile _ => true | _ => false end.

Definition is_file_read (e : Event) : bool :=
  match e with FsReadFile _ => true | _ => false end.

(** A key-set fetch is the reading of a file or an HTTP GET. *)
Definition is_fetch (e : Event) : bool :=
  match e with FsReadFile _ | HttpGet _ => true | _ => false end.

Definition is_fetch_of (location : string) (e : Event) : bool :=
  match e with
  | FsReadFile p => p =? location
  | HttpGet u => u =? location
  | _ => false
  end.

(** ** The class *)

Section Model.
Context {J : Jose}.

(** [jose.JWK.KeyStore]: the keys of one JWK set, in document order. *)
Definition KeyStore : Type := list Key.

(** Modelled from the spec: [keystore.all({alg})] is code of node-jose,
    which is not part of the repository; the specification's key store
    returns, for an algorithm, the keys whose algorithm attribute equals
    it, in document order. *)
Definition KeyStore_all (store : KeyStore) (alg : string) : list Key :=
  filter (fun k => key_alg k =? alg) store.

Record Encryption : Type := {
  clientPrivateKeySetLocation : string;
  hyperwalletKeySetLocation : string;
  clientKeyStore : option KeyStore;
  hwKeyStore : option KeyStore;
  encryptionAlgorithm : string;
  signAlgorithm : string;
  encryptionMethod : string;
  jwsExpirationMinutes : Z
}.

(** The constructor; the last four arguments have defaults. *)
Definition new_Encryption
  (clientLocation hyperwalletLocation : string)
  (encryptionAlgorithm signAlgorithm encryptionMethod : string)
  (jwsExpirationMinutes : Z) : Encryption :=
  {| clientPrivateKeySetLocation := clientLocation;
     hyperwalletKeySetLocation := hyperwalletLocation;
     clientKeyStore := None;
     hwKeyStore := None;
     encryptionAlgorithm := encryptionAlgorithm;
     signAlgorithm := signAlgorithm;
     encryptionMethod := encryptionMethod;
     jwsExpirationMinutes := jwsExpirationMinutes |}.

Definition default_Encryption (clientLocation hyperwalletLocation : string)
  : Encryption :=
  new_Encryption clientLocation hyperwalletLocation
    "RSA-OAEP-256" "RS256" "A256CBC-HS512" 5.

(** [this.clientKeyStore = result] *)
Definition set_clientKeyStore (result : KeyStore) (this : Encryption)
  : Encryption :=
  {| clientPrivateKeySetLocation := clientPrivateKeySetLocation this;
     hyperwalletKeySetLocation := hyperwalletKeySetLocation this;
     clientKeyStore := Some result;
     hwKeyStore := hwKeyStore this;
     encryptionAlgorithm := encryptionAlgorithm this;
     signAlgorithm := signAlgorithm this;
     encryptionMethod := encryptionMethod this;
     jwsExpirationMinutes := jwsExpirationMinutes this |}.

(** [this.hwKeyStore = result] *)
Definition set_hwKeyStore (result : KeyStore) (this : Encryption)
  : Encryption :=
  {| clientPrivateKeySetLocation := clientPrivateKeySetLocation this;
     hyperwalletKeySetLocation := hyperwalletKeySetLocation this;
     clientKeyStore := clientKeyStore this;
     hwKeyStore := Some result;
     encryptionAlgorithm := encryptionAlgorithm this;
     signAlgorithm := signAlgorithm this;
     encryptionMethod := encryptionMethod this;
     jwsExpirationMinutes := jwsExpirationMinutes this |}.

(** The result of a method that may assign fields of [this]. *)
Record Run (A : Type) : Type := {
  after : Encryption;
  trace : list Event;
  promise : JS.Promise A
}.

Arguments after {A} _.
Arguments trace {A} _.
Arguments promise {A} _.

(** *** Messages of the errors the class raises *)

Definition no_key_with_algorithm (alg : string) : string :=
  "JWK set doesn't contain key with algorithm = " ++ alg.

Definition signature_expired : string := "JWS signature has expired".

Definition failed_to_verify (keyId : string) : string :=
  "Failed to verify signature with key id = " ++ keyId.

Definition failed_to_decrypt (keyId : string) : string :=
  "Failed to decrypt payload with key id = " ++ keyId.

Definition failed_to_encrypt (keyId : string) : string :=
  "Failed to encrypt payload with key id = " ++ keyId.

Definition failed_to_sign (keyId : string) : string :=
  "Failed to sign with key id = " ++ keyId.

Definition failed_to_create_keyStore : string :=
  "Failed to create keyStore from given jwkSet".

Definition wrong_location (keySetPath : string) : string :=
  "Wrong JWK set location path = " ++ keySetPath.

(** Reading [.all] of a store that was never assigned throws inside the
    [async] executor of [new Promise]: the promise of the executor is
    dropped, and the promise under construction is never settled. *)
Definition undefined_store : string :=
  "TypeError: Cannot read properties of undefined (reading 'all')".

(** *** Clock *)

(** [Encryption.getCurrentTime] *)
Definition getCurrentTime (w : World) : Z :=
  let millisecondsInSecond := 1000%Z in
  JS.Math_round (inject_Z (Date_getTime w) / inject_Z millisecondsInSecond)%Q.

(** [Encryption.getSignatureExpirationTime], for a window of a whole
    number of minutes.  The sum goes through [new Date(...).getTime()],
    which gives [NaN] outside the range of time values; [Math.round] of
    [NaN] is [NaN]. *)
Definition getSignatureExpirationTime (w : World) (this : Encryption)
  : JS.Num :=
  let millisecondsInMinute := 60000%Z in
  let millisecondsInSecond := 1000%Z in
  let currentTime :=
    JS.new_Date_getTime
      (Date_getTime w + jwsExpirationMinutes this * millisecondsInMinute)%Z in
  match currentTime with
  | JS.Int t =>
      JS.Int (JS.Math_round (inject_Z t / inject_Z millisecondsInSecond)%Q)
  | JS.NaN => JS.NaN
  end.

(** *** Key material *)

(** [Encryption.readKeySet] *)
Definition readKeySet (w : World) (keySetPath : string)
  : list Event * JS.Promise KeySetData :=
  if fs_existsSync w keySetPath then
    match fs_readFile w keySetPath with
    | inl keySetData =>
        ([FsExists keySetPath; FsReadFile keySetPath],
         JS.resolve (KeySetText keySetData) JS.Pending)
    | inr err_message =>
        ([FsExists keySetPath; FsReadFile keySetPath],
         JS.reject err_message JS.Pending)
    end
  else
    match request w keySetPath with
    | Some response =>
        let responseBody :=
          if JS.truthy (body response)
             && negb (JS.Object_keys_length (body response) =? 0)%nat
          then KeySetBody (body response)
          else KeySetText (text response) in
        ([FsExists keySetPath; HttpGet keySetPath],
         JS.resolve responseBody JS.Pending)
    | None =>
        ([FsExists keySetPath; HttpGet keySetPath],
         JS.reject (wrong_location keySetPath) JS.Pending)
    end.

(** [Encryption.checkUrlIsValid] *)
Definition checkUrlIsValid (w : World) (url : string) : list Event * bool :=
  match request w url with
  | Some response => ([HttpGet url], (status response =? 200)%Z)
  | None => ([HttpGet url], false)
  end.

(** [Encryption.createKeyStore].  [outer] is the promise under
    construction.  The first handler of the chain catches what
    [asKeyStore] throws or rejects with, calls [reject] and returns, so the
    chain goes on to the client key set.  In the second handler a rejection
    of [asKeyStore] is caught and answered with [reject]; an exception
    reaches the [catch(reject)] that ends the chain. *)
Definition createKeyStore (w : World) (this : Encryption) : Run unit :=
  let outer : JS.Promise unit := JS.Pending in
  let (tr1, hwSet) := readKeySet w (hyperwalletKeySetLocation this) in
  match hwSet with
  | JS.Pending => {| after := this; trace := tr1; promise := outer |}
  | JS.Rejected e =>
      {| after := this; trace := tr1; promise := JS.reject e outer |}
  | JS.Fulfilled jwkSet =>
      let (this1, outer1) :=
        match JWK_asKeyStore jwkSet with
        | JS.Ok result => (set_hwKeyStore result this, outer)
        | JS.Rejects _ | JS.Throws _ =>
            (this, JS.reject failed_to_create_keyStore outer)
        end in
      let (tr2, clientSet) :=
        readKeySet w (clientPrivateKeySetLocation this1) in
      match clientSet with
      | JS.Pending =>
          {| after := this1; trace := tr1 ++ tr2; promise := outer1 |}
      | JS.Rejected e =>
          {| after := this1; trace := tr1 ++ tr2;
             promise := JS.reject e outer1 |}
      | JS.Fulfilled jwkSet2 =>
          match JWK_asKeyStore jwkSet2 with
          | JS.Ok result =>
              {| after := set_clientKeyStore result this1;
                 trace := tr1 ++ tr2;
                 promise := JS.resolve tt outer1 |}
          | JS.Rejects _ =>
              {| after := this1; trace := tr1 ++ tr2;
                 promise :=
                   JS.resolve tt
                     (JS.reject failed_to_create_keyStore outer1) |}
          | JS.Throws e =>
              {| after := this1; trace := tr1 ++ tr2;
                 promise := JS.reject e outer1 |}
          end
      end
  end.

(** [Encryption.createKeyStoreFromJwkSet] *)
Definition createKeyStoreFromJwkSet (this : Encryption)
  (jwkSetPath : string) (jwkSet : KeySetData) : Run KeyStore :=
  match JWK_asKeyStore jwkSet with
  | JS.Ok result =>
      let this1 :=
        if jwkSetPath =? clientPrivateKeySetLocation this
        then set_clientKeyStore result this
        else set_hwKeyStore result this in
      {| after := this1; trace := [];
         promise := JS.resolve result JS.Pending |}
  | JS.Rejects _ =>
      {| after := this; trace := [];
         promise := JS.reject failed_to_create_keyStore JS.Pending |}
  | JS.Throws e =>
      {| after := this; trace := [];
         promise := JS.reject e JS.Pending |}
  end.

(** [store.all({alg})[0]] *)
Definition first_key (store : KeyStore) (alg : string) : option Key :=
  hd_error (KeyStore_all store alg).

(** *** Signing *)

(** The header [signBody] builds for [key]. *)
Definition signHeader (w : World) (this : Encryption) (key : Key)
  : SignHeader :=
  {| sign_format := "compact";
     sign_alg := key_alg key;
     fields := {| crit := ["exp"];
                  exp := getSignatureExpirationTime w this;
                  kid := key_kid key |} |}.

(** [signBody], from [await jose.JWK.asKey(rawKey)] on.  The executor is
    an [async] function: when [asKey] fails, or [createSign] throws, the
    exception leaves the executor and nothing settles the promise. *)
Definition signBody_with (w : World) (this : Encryption) (rawKey : Key)
  (body : JS.Json) : list Event * JS.Promise Envelope :=
  match JWK_asKey rawKey with
  | JS.Rejects err | JS.Throws err => ([UnhandledRejection err], JS.Pending)
  | JS.Ok key =>
      match JWS_createSign (signHeader w this key) key (JSON_stringify body)
      with
      | JS.Ok signed => ([], JS.resolve signed JS.Pending)
      | JS.Rejects _ =>
          ([], JS.reject (failed_to_sign (key_kid key)) JS.Pending)
      | JS.Throws err => ([UnhandledRejection err], JS.Pending)
      end
  end.

(** [Encryption.signBody] *)
Definition signBody (w : World) (this : Encryption) (body : JS.Json)
  : list Event * JS.Promise Envelope :=
  match clientKeyStore this with
  | None => ([UnhandledRejection undefined_store], JS.Pending)
  | Some store =>
      match first_key store (signAlgorithm this) with
      | None =>
          ([], JS.reject (no_key_with_algorithm (signAlgorithm this))
                 JS.Pending)
      | Some rawKey => signBody_with w this rawKey body
      end
  end.

(** *** Encryption *)

(** The header [encryptBody] builds for [key]. *)
Definition encryptionHeader (this : Encryption) (key : Key)
  : EncryptionHeader :=
  {| enc_format := "compact";
     enc_alg := key_alg key;
     enc := encryptionMethod this;
     enc_kid := key_kid key |}.

(** [encryptBody], from [jose.JWK.asKey(rawKey)] on.  A rejection of
    [asKey] reaches [catch(reject)]; the [try] around the encryption
    catches both a rejection and an exception. *)
Definition encryptBody_with (this : Encryption) (rawKey : Key)
  (body : Envelope) : list Event * JS.Promise Envelope :=
  match JWK_asKey rawKey with
  | JS.Throws err => ([UnhandledRejection err], JS.Pending)
  | JS.Rejects err => ([], JS.reject err JS.Pending)
  | JS.Ok key =>
      match JWE_createEncrypt (encryptionHeader this key) key body with
      | JS.Ok value => ([], JS.resolve value JS.Pending)
      | JS.Rejects _ | JS.Throws _ =>
          ([], JS.reject (failed_to_encrypt (key_kid key)) JS.Pending)
      end
  end.

(** [Encryption.encryptBody] *)
Definition encryptBody (this : Encryption) (body : Envelope)
  : list Event * JS.Promise Envelope :=
  match hwKeyStore this with
  | None => ([UnhandledRejection undefined_store], JS.Pending)
  | Some store =>
      match first_key store (encryptionAlgorithm this) with
      | None =>
          ([], JS.reject (no_key_with_algorithm (encryptionAlgorithm this))
                 JS.Pending)
      | Some rawKey => encryptBody_with this rawKey body
      end
  end.

(** [decryptBody], from [jose.JWK.asKey(rawKey)] on; the result is the
    plaintext as a string.  A rejection of [decrypt] is answered with the
    message of the class; an exception of [decrypt] leaves the handler and
    reaches [catch(reject)] with its own message. *)
Definition decryptBody_with (this : Encryption) (rawKey : Key)
  (body : Envelope) : list Event * JS.Promise Envelope :=
  match JWK_asKey rawKey with
  | JS.Throws err => ([UnhandledRejection err], JS.Pending)
  | JS.Rejects err => ([], JS.reject err JS.Pending)
  | JS.Ok key =>
      match JWE_createDecrypt key body with
      | JS.Ok decrypted => ([], JS.resolve decrypted JS.Pending)
      | JS.Rejects _ =>
          ([], JS.reject (failed_to_decrypt (key_kid key)) JS.Pending)
      | JS.Throws err => ([], JS.reject err JS.Pending)
      end
  end.

(** [Encryption.decryptBody] *)
Definition decryptBody (this : Encryption) (body : Envelope)
  : list Event * JS.Promise Envelope :=
  match clientKeyStore this with
  | None => ([UnhandledRejection undefined_store], JS.Pending)
  | Some store =>
      match first_key store (encryptionAlgorithm this) with
      | None =>
          ([], JS.reject (no_key_with_algorithm (encryptionAlgorithm this))
                 JS.Pending)
      | Some rawKey => decryptBody_with this rawKey body
      end
  end.

(** *** Verification *)

(** The [exp] handler of [checkSignature]: it rejects the promise under
    construction and returns; a header without [exp] compares false. *)
Definition exp_handler {A} (w : World) (jws_header : JwsHeader)
  (outer : JS.Promise A) : JS.Promise A :=
  match header_exp jws_header with
  | Some e =>
      if (getCurrentTime w >? e)%Z then JS.reject signature_expired outer
      else outer
  | None => outer
  end.

(** [checkSignature], from [jose.JWK.asKey(rawKey)] on.  The verifier of
    node-jose parses the envelope, runs the handlers it was given on the
    parsed signature, and checks the signature after them (the order of
    the specification's [verify]: parse, expiry, signature).  A rejection of
    [verify] is answered with the message of the class; an exception of
    [verify] reaches [catch(reject)] with its own message. *)
Definition checkSignature_with (w : World) (this : Encryption)
  (rawKey : Key) (body : Envelope)
  : list Event * JS.Promise (VerificationResult Key) :=
  match JWK_asKey rawKey with
  | JS.Throws err => ([UnhandledRejection err], JS.Pending)
  | JS.Rejects err => ([], JS.reject err JS.Pending)
  | JS.Ok key =>
      match JWS_parse body with
      | JS.Throws err => ([], JS.reject err JS.Pending)
      | JS.Rejects _ =>
          ([], JS.reject (failed_to_verify (key_kid key)) JS.Pending)
      | JS.Ok jws_header =>
          let outer := exp_handler w jws_header JS.Pending in
          match JWS_check key body with
          | Some result => ([], JS.resolve result outer)
          | None => ([], JS.reject (failed_to_verify (key_kid key)) outer)
          end
      end
  end.

(** [Encryption.checkSignature] *)
Definition checkSignature (w : World) (this : Encryption) (body : Envelope)
  : list Event * JS.Promise (VerificationResult Key) :=
  match hwKeyStore this with
  | None => ([UnhandledRejection undefined_store], JS.Pending)
  | Some store =>
      match first_key store (signAlgorithm this) with
      | None =>
          ([], JS.reject (no_key_with_algorithm (signAlgorithm this))
                 JS.Pending)
      | Some rawKey => checkSignature_with w this rawKey body
      end
  end.

(** *** The two end-to-end operations *)

(** The test [this.clientKeyStore && this.hwKeyStore] of [encrypt]. *)
Definition both_stores (this : Encryption) : bool :=
  match clientKeyStore this, hwKeyStore this with
  | Some _, Some _ => true
  | _, _ => false
  end.

(** The test [this.hwKeyStore] of [decrypt]. *)
Definition hw_store (this : Encryption) : bool :=
  match hwKeyStore this with
  | Some _ => true
  | None => false
  end.

Definition already_resolved (this : Encryption) : Run unit :=
  {| after := this; trace := []; promise := JS.Fulfilled tt |}.

(** The [keyStorePromise] of [encrypt] *)
Definition encrypt_keyStorePromise (w : World) (this : Encryption)
  : Run unit :=
  if both_stores this then already_resolved this else createKeyStore w this.

(** The [keyStorePromise] of [decrypt] *)
Definition decrypt_keyStorePromise (w : World) (this : Encryption)
  : Run unit :=
  if hw_store this then already_resolved this else createKeyStore w this.

(** [Encryption.encrypt] *)
Definition encrypt (w : World) (this : Encryption) (body : JS.Json)
  : Run Envelope :=
  let keyStorePromise := encrypt_keyStorePromise w this in
  let this1 := after keyStorePromise in
  match promise keyStorePromise with
  | JS.Pending =>
      {| after := this1; trace := trace keyStorePromise;
         promise := JS.Pending |}
  | JS.Rejected e =>
      {| after := this1; trace := trace keyStorePromise;
         promise := JS.Rejected e |}
  | JS.Fulfilled _ =>
      let (tr_sign, signed) := signBody w this1 body in
      match signed with
      | JS.Pending =>
          {| after := this1; trace := trace keyStorePromise ++ tr_sign;
             promise := JS.Pending |}
      | JS.Rejected e =>
          {| after := this1; trace := trace keyStorePromise ++ tr_sign;
             promise := JS.Rejected e |}
      | JS.Fulfilled signedBody =>
          let (tr_enc, encrypted) := encryptBody this1 signedBody in
          {| after := this1;
             trace := trace keyStorePromise ++ tr_sign ++ tr_enc;
             promise := encrypted |}
      end
  end.

(** [Encryption.decrypt] *)
Definition decrypt (w : World) (this : Encryption) (body : Envelope)
  : Run (VerificationResult Key) :=
  let keyStorePromise := decrypt_keyStorePromise w this in
  let this1 := after keyStorePromise in
  match promise keyStorePromise with
  | JS.Pending =>
      {| after := this1; trace := trace keyStorePromise;
         promise := JS.Pending |}
  | JS.Rejected e =>
      {| after := this1; trace := trace keyStorePromise;
         promise := JS.Rejected e |}
  | JS.Fulfilled _ =>
      let (tr_dec, decrypted) := decryptBody this1 body in
      match decrypted with
      | JS.Pending =>
          {| after := this1; trace := trace keyStorePromise ++ tr_dec;
             promise := JS.Pending |}
      | JS.Rejected e =>
          {| after := this1; trace := trace keyStorePromise ++ tr_dec;
             promise := JS.Rejected e |}
      | JS.Fulfilled plaintext =>
          let (tr_chk, verified) := checkSignature w this1 plaintext in
          {| after := this1;
             trace := trace keyStorePromise ++ tr_dec ++ tr_chk;
             promise := verified |}
      end
  end.

End Model.

Arguments after {J A} _.
Arguments trace {J A} _.
Arguments promise {J A} _.

(** ** Key pairs *)

Section KeyPairs.
Context {J : Jose}.

(** The header a verifier reads from an envelope signed under [h]; its
    [exp] is the number the comparison of the handler sees. *)
Definition header_of_sign (h : SignHeader) : JwsHeader :=
  {| header_alg := sign_alg h;
     header_kid := kid (fields h);
     header_crit := crit (fields h);
     header_exp := Some (JS.written_and_compared (exp (fields h))) |}.






(** No key of [store] has the algorithm attribute [alg]. *)
Definition no_key_for (store : KeyStore) (alg : string) : Prop :=
  forall k : Key, In k store -> key_alg k <> alg.

(** [k] is the first key of [store], in document order, whose algorithm
    attribute is [alg]. *)
Definition first_in_document_order (store : KeyStore) (alg : string)
  (k : Key) : Prop :=
  exists before behind : list Key,
    store = before ++ k :: behind
    /\ key_alg k = alg
    /\ no_key_for before alg.

(** The header was past its [exp] when the clock showed [now] seconds. *)
Definition expired_at (now : Z) (h : JwsHeader) : Prop :=
  exists e : Z, header_exp h = Some e /\ (e < now)%Z.


(** The configuration of an instance: everything but the two stores. *)
Definition same_configuration (a b : Encryption) : Prop :=
  clientPrivateKeySetLocation a = clientPrivateKeySetLocation b
  /\ hyperwalletKeySetLocation a = hyperwalletKeySetLocation b
  /\ encryptionAlgorithm a = encryptionAlgorithm b
  /\ signAlgorithm a = signAlgorithm b
  /\ encryptionMethod a = encryptionMethod b
  /\ jwsExpirationMinutes a = jwsExpirationMinutes b.

End KeyPairs.

(** ** A small instance of the collaborators

    Keys carry the number of the pair they belong to; a signature records
    the pair that made it, a ciphertext the pair it is sealed for. *)

Module Toy.

Local Open Scope string_scope.

Record ToyKey : Type := {
  t_kid : string;
  t_alg : string;
  t_pair : nat;
  t_private : bool
}.

Inductive ToyEnvelope : Type :=
| Signed (h : JwsHeader) (text : string) (signer : nat)
| Sealed (recipient : nat) (inner : ToyEnvelope)
| Garbage.

Definition client_sig : ToyKey :=
  {| t_kid := "client-sig"; t_alg := "RS256";
     t_pair := 1; t_private := true |}.

Definition client_enc : ToyKey :=
  {| t_kid := "client-enc"; t_alg := "RSA-OAEP-256";
     t_pair := 2; t_private := true |}.

Definition hw_sig : ToyKey :=
  {| t_kid := "hw-sig"; t_alg := "RS256";
     t_pair := 1; t_private := false |}.

Definition hw_enc : ToyKey :=
  {| t_kid := "hw-enc"; t_alg := "RSA-OAEP-256";
     t_pair := 2; t_private := false |}.

Definition client_keys : list ToyKey := [client_sig; client_enc].

Definition hyperwallet_keys : list ToyKey := [hw_sig; hw_enc].

Definition es256_keys : list ToyKey :=
  [ {| t_kid := "ec-1"; t_alg := "ES256";
       t_pair := 3; t_private := true |} ].

Definition asKeyStore (d : KeySetData) : JS.Call (list ToyKey) :=
  match d with
  | KeySetText t =>
      if t =? "CLIENT-JWKS" then JS.Ok client_keys
      else if t =? "HYPERWALLET-JWKS" then JS.Ok hyperwallet_keys
      else if t =? "ES256-JWKS" then JS.Ok es256_keys
      else JS.Rejects "unsupported key set"
  | KeySetBody _ => JS.Rejects "unsupported key set"
  end.

Definition createSign (h : SignHeader) (k : ToyKey) (text : string)
  : JS.Call ToyEnvelope :=
  if t_private k then JS.Ok (Signed (header_of_sign h) text (t_pair k))
  else JS.Rejects "no private key".

Definition parse (e : ToyEnvelope) : JS.Call JwsHeader :=
  match e with
  | Signed h _ _ =>
      if forallb (fun c => c =? "exp") (header_crit h) then JS.Ok h
      else JS.Rejects "Critical extension is not supported"
  | Sealed _ _ => JS.Rejects "not a signature"
  | Garbage => JS.Throws "Unexpected token"
  end.

Definition check (k : ToyKey) (e : ToyEnvelope)
  : option (VerificationResult ToyKey) :=
  match e with
  | Signed h text signer =>
      if (signer =? t_pair k)%nat
      then Some {| header := h; payload := text; key := k |}
      else None
  | _ => None
  end.

Definition createEncrypt (h : EncryptionHeader) (k : ToyKey)
  (plain : ToyEnvelope) : JS.Call ToyEnvelope :=
  JS.Ok (Sealed (t_pair k) plain).

Definition createDecrypt (k : ToyKey) (e : ToyEnvelope)
  : JS.Call ToyEnvelope :=
  match e with
  | Sealed recipient inner =>
      if (recipient =? t_pair k)%nat && t_private k then JS.Ok inner
      else JS.Rejects "wrong key"
  | Signed _ _ _ => JS.Rejects "not a ciphertext"
  | Garbage => JS.Throws "Unexpected token"
  end.

Definition quote : string := String (ascii_of_nat 34) EmptyString.

Fixpoint stringify (v : JS.Json) : string :=
  match v with
  | JS.JNull => "null"
  | JS.JBool true => "true"
  | JS.JBool false => "false"
  | JS.JNum n => DecimalString.NilZero.string_of_int (Z.to_int n)
  | JS.JStr s => quote ++ s ++ quote
  | JS.JArr items =>
      "[" ++ (fix go (l : list JS.Json) : string :=
                match l with
                | [] => ""
                | [x] => stringify x
                | x :: tl => stringify x ++ "," ++ go tl
                end) items ++ "]"
  | JS.JObj members =>
      "{" ++ (fix go (l : list (string * JS.Json)) : string :=
                match l with
                | [] => ""
                | [(k, x)] => quote ++ k ++ quote ++ ":" ++ stringify x
                | (k, x) :: tl =>
                    quote ++ k ++ quote ++ ":" ++ stringify x ++ "," ++ go tl
                end) members ++ "}"
  end.

Definition jose : Jose :=
  {| Key := ToyKey;
     Envelope := ToyEnvelope;
     key_kid := t_kid;
     key_alg := t_alg;
     JWK_asKeyStore := asKeyStore;
     JWK_asKey := fun k => JS.Ok k;
     JWS_createSign := createSign;
     JWS_parse := parse;
     JWS_check := check;
     JWE_createEncrypt := createEncrypt;
     JWE_createDecrypt := createDecrypt;
     JSON_stringify := stringify |}.

(** A machine with key sets on disk, a directory, and one URL that serves
    the hyperwallet key set; [hw_file] is what the hyperwallet file holds
    and [now] is the clock. *)
Definition world_with (hw_file : string) (now : Z) : World :=
  {| fs_existsSync := fun p =>
       (p =? "/keys/client.json") || (p =? "/keys/hw.json")
       || (p =? "/keys/broken.json") || (p =? "/keys");
     fs_readFile := fun p =>
       if p =? "/keys/client.json" then inl "CLIENT-JWKS"
       else if p =? "/keys/hw.json" then inl hw_file
       else if p =? "/keys/broken.json" then inl "{"
       else inr "EISDIR: illegal operation on a directory, read";
     request := fun u =>
       if u =? "https://keys.test/hw"
       then Some {| status := 200; body := JS.JObj [];
                    text := "HYPERWALLET-JWKS" |}
       else None;
     Date_getTime := now |}.

Definition world (now : Z) : World := world_with "HYPERWALLET-JWKS" now.

Definition amount_100 : JS.Json := JS.JObj [("amount", JS.JNum 100)].

(** [new Encryption('/keys/client.json', '/keys/hw.json')] *)
Definition fresh : @Encryption jose :=
  default_Encryption "/keys/client.json" "/keys/hw.json".

(** The same instance with both stores in place. *)
Definition ready : @Encryption jose :=
  @set_clientKeyStore jose client_keys
    (@set_hwKeyStore jose hyperwallet_keys fresh).

(** [new Encryption('/nope', '/keys/hw.json')]: the client location is
    neither a file nor a URL that answers. *)
Definition no_client : @Encryption jose :=
  default_Encryption "/nope" "/keys/hw.json".

(** An instance whose two stores hold an ES256 key only. *)
Definition es256_only : @Encryption jose :=
  @set_clientKeyStore jose es256_keys
    (@set_hwKeyStore jose es256_keys fresh).

(** A signed envelope whose header says [exp = 300]. *)
Definition signed_until_300 : ToyEnvelope :=
  Signed {| header_alg := "RS256"; header_kid := "hw-sig";
            header_crit := ["exp"]; header_exp := Some 300%Z |}
    "{}" 1.

End Toy.

(** ** Measures used by the further properties *)

(** The number of '.' in a string. *)
Fixpoint count_dots (s : string) : nat :=
  match s with
  | EmptyString => 0
  | String c rest =>
      if Ascii.eqb c "."%char then S (count_dots rest) else count_dots rest
  end.

(** An access to the file system or to the network. *)
Definition is_io (e : Event) : bool := is_filesystem e || is_network e.

Definition is_unhandled (e : Event) : bool :=
  match e with UnhandledRejection _ => true | _ => false end.

(** A step whose promise is pending exactly when its trace holds an
    unhandled rejection. *)
Definition hangs_loudly {A} (step : list Event * JS.Promise A) : Prop :=
  snd step = JS.Pending <-> existsb is_unhandled (fst step) = true.

Section Measures.
Context {J : Jose}.

(** A store that was assigned is still assigned, whatever it holds. *)
Definition stores_kept (before after : Encryption) : Prop :=
  (clientKeyStore before <> None -> clientKeyStore after <> None)
  /\ (hwKeyStore before <> None -> hwKeyStore after <> None).

End Measures.

(** ** Sample values on the small instance *)

Module Sample.

(** What [signBody] returns for [Toy.amount_100] at clock 0 under the
    default window. *)
Definition signed_amount : Toy.ToyEnvelope :=
  Toy.Signed
    {| header_alg := "RS256"; header_kid := "client-sig";
       header_crit := ["exp"]; header_exp := Some 300%Z |}
    (Toy.stringify Toy.amount_100) 1.

(** What [encrypt] returns for it. *)
Definition sealed_amount : Toy.ToyEnvelope := Toy.Sealed 2 signed_amount.

(** An instance that has the hyperwallet store only. *)
Definition hw_only : @Encryption Toy.jose :=
  @set_hwKeyStore Toy.jose Toy.hyperwallet_keys Toy.fresh.

(** [new Encryption('/keys/client.json', '/keys/broken.json')]: the
    hyperwallet file does not hold a key set. *)
Definition broken_hw : @Encryption Toy.jose :=
  @default_Encryption Toy.jose "/keys/client.json" "/keys/broken.json".



(** A window of 144000000001 minutes: from clock 0 it ends 60 seconds
    after the last time value of a [Date]. *)
Definition beyond_dates : @Encryption Toy.jose :=
  @set_clientKeyStore Toy.jose Toy.client_keys
    (@set_hwKeyStore Toy.jose Toy.hyperwallet_keys
       (@new_Encryption Toy.jose "/keys/client.json" "/keys/hw.json"
          "RSA-OAEP-256" "RS256" "A256CBC-HS512" 144000000001)).

End Sample.

(* ================================================================== *)
(** * Part II: properties *)
(* ================================================================== *)

(** ** Arrays and strings *)

Lemma forEach_push_map {A B} (f : A -> B) (l : list A) (acc : list B) :
  JS.forEach_push f l acc = acc ++ map f l.
Proof.
  unfold JS.forEach_push. revert acc.
  induction l as [|x l IH]; intros acc; simpl.
  - now rewrite app_nil_r.
  - rewrite IH, <- app_assoc. reflexivity.
Qed.

Lemma split_dot_not_nil (s : string) : JS.split_dot s <> [].
Proof.
  destruct s as [|c rest]; simpl; [discriminate|].
  destruct (Ascii.eqb c "."); [discriminate|].
  destruct (JS.split_dot rest); discriminate.
Qed.

Lemma join_dot_cons_char (c : ascii) (seg : string) (segs : list string) :
  JS.join_dot (String c seg :: segs) = String c (JS.join_dot (seg :: segs)).
Proof. destruct segs; reflexivity. Qed.

Lemma join_dot_split_dot (s : string) : JS.join_dot (JS.split_dot s) = s.
Proof.
  induction s as [|c rest IH]; [reflexivity|].
  simpl. destruct (Ascii.eqb c ".") eqn:Ec.
  - apply Ascii.eqb_eq in Ec. subst c.
    pose proof (split_dot_not_nil rest) as Hne.
    destruct (JS.split_dot rest) as [|seg segs]; [congruence|].
    change (JS.join_dot (EmptyString :: seg :: segs))
      with (String "." (JS.join_dot (seg :: segs))).
    now rewrite IH.
  - pose proof (split_dot_not_nil rest) as Hne.
    destruct (JS.split_dot rest) as [|seg segs]; [congruence|].
    rewrite join_dot_cons_char, IH. reflexivity.
Qed.

(** ** Base64url: decoding undoes encoding *)

Section Base64Facts.
Import Base64Url.

(** Lists taken three elements at a time, as the encoder does. *)
Lemma list_by_three {A} (P : list A -> Prop) :
  P [] -> (forall a, P [a]) -> (forall a b, P [a; b]) ->
  (forall a b c rest, P rest -> P (a :: b :: c :: rest)) ->
  forall l, P l.
Proof.
  intros H0 H1 H2 H3.
  refine (fix go (l : list A) : P l := _).
  destruct l as [|a [|b [|c rest]]];
    [exact H0 | exact (H1 a) | exact (H2 a b)
    | exact (H3 a b c rest (go rest))].
Qed.

Definition octet (n : N) : Prop := (n < 256)%N.
Definition sextet (n : N) : Prop := (n < 64)%N.

(** Division and remainder by a constant, after moving to [Z]. *)
Ltac divmod := zify; Z.to_euclidean_division_equations; lia.

Lemma sextets_of_octets_bound (os : list N) :
  Forall octet os -> Forall sextet (sextets_of_octets os).
Proof.
  induction os as [|a|a b|a b c rest IH] using list_by_three;
    intros H; simpl.
  - constructor.
  - inversion_clear H as [|? ? Ha _]. unfold octet, sextet in *.
    repeat (apply Forall_cons; [divmod|]). apply Forall_nil.
  - inversion_clear H as [|? ? Ha H']. inversion_clear H' as [|? ? Hb _].
    unfold octet, sextet in *.
    repeat (apply Forall_cons; [divmod|]). apply Forall_nil.
  - inversion_clear H as [|? ? Ha H']. inversion_clear H' as [|? ? Hb H''].
    inversion_clear H'' as [|? ? Hc Hrest].
    unfold octet, sextet in *.
    repeat (apply Forall_cons; [divmod|]). now apply IH.
Qed.

Lemma octets_of_sextets_of_octets (os : list N) :
  Forall octet os -> octets_of_sextets (sextets_of_octets os) = os.
Proof.
  induction os as [|a|a b|a b c rest IH] using list_by_three;
    intros H; simpl.
  - reflexivity.
  - inversion_clear H as [|? ? Ha _]. unfold octet in *.
    f_equal. divmod.
  - inversion_clear H as [|? ? Ha H']. inversion_clear H' as [|? ? Hb _].
    unfold octet in *. repeat (f_equal; try divmod).
  - inversion_clear H as [|? ? Ha H']. inversion_clear H' as [|? ? Hb H''].
    inversion_clear H'' as [|? ? Hc Hrest]. unfold octet in *.
    rewrite (IH Hrest). repeat (f_equal; try divmod).
Qed.

Lemma char_sextet_sextet_char (n : N) :
  sextet n -> char_sextet (sextet_char n) = Some n.
Proof.
  unfold sextet. intros H.
  destruct n as [|p]; [reflexivity|].
  do 6 (destruct p as [p|p|]; try reflexivity; try lia).
Qed.

Lemma sextet_char_not_pad (n : N) :
  sextet n -> Ascii.eqb (sextet_char n) "=" = false.
Proof.
  unfold sextet. intros H.
  destruct n as [|p]; [reflexivity|].
  do 6 (destruct p as [p|p|]; try reflexivity; try lia).
Qed.

Lemma sextets_of_chars_map (ss : list N) :
  Forall sextet ss -> sextets_of_chars (map sextet_char ss) = ss.
Proof.
  induction 1 as [|n ss Hn _ IH]; simpl; [reflexivity|].
  now rewrite (sextet_char_not_pad n Hn), (char_sextet_sextet_char n Hn), IH.
Qed.

Lemma byte_of_octet_to_N (b : byte) : byte_of_octet (Byte.to_N b) = b.
Proof.
  unfold byte_of_octet.
  pose proof (Byte.to_N_bounded b) as Hb.
  rewrite N.mod_small by lia.
  now rewrite Byte.of_to_N.
Qed.

Lemma to_N_octets (b : Buffer) : Forall octet (map Byte.to_N b).
Proof.
  induction b as [|o b IH]; simpl; constructor; auto.
  unfold octet. pose proof (Byte.to_N_bounded o). lia.
Qed.

Lemma decode_encode (b : Buffer) : decode (encode b) = b.
Proof.
  unfold decode, encode.
  rewrite list_ascii_of_string_of_list_ascii.
  rewrite sextets_of_chars_map
    by (apply sextets_of_octets_bound, to_N_octets).
  rewrite octets_of_sextets_of_octets by apply to_N_octets.
  rewrite map_map. rewrite <- (map_id b) at 2.
  apply map_ext. intros o. apply byte_of_octet_to_N.
Qed.

Lemma Buffer_from_toJSON (b : Buffer) :
  Buffer_from (Buffer_toJSON_data b) = b.
Proof.
  unfold Buffer_from, Buffer_toJSON_data. rewrite map_map.
  rewrite <- (map_id b) at 2. apply map_ext. intros o.
  pose proof (Byte.to_N_bounded o) as Hb.
  rewrite Z.mod_small by lia.
  rewrite N2Z.id. apply byte_of_octet_to_N.
Qed.

End Base64Facts.

(** A segment is canonical base64url when an encoder can have written it. *)
Definition base64url_segment (seg : string) : Prop :=
  exists b : Base64Url.Buffer, seg = Base64Url.encode b.

Lemma reencode_segment (seg : string) :
  base64url_segment seg ->
  Base64Url.encode
    (Base64Url.Buffer_from
       (Base64Url.Buffer_toJSON_data (Base64Url.decode seg))) = seg.
Proof.
  intros [b ->]. now rewrite Buffer_from_toJSON, decode_encode.
Qed.

(** C10. [base64Decode] yields one decoded buffer per '.'-separated segment,
    in segment order; [base64Encode] re-encodes every part and joins the
    results with '.'; and on an envelope whose segments are base64url
    encodings, [base64Encode (base64Decode s)] is [s] again. *)
Theorem base64_segmentwise_roundtrip (s : string) :
  parts (base64Decode s) = map Base64Url.decode (JS.split_dot s)
  /\ List.length (parts (base64Decode s)) = List.length (JS.split_dot s)
  /\ (forall d : DecodedBody,
        base64Encode d =
        JS.join_dot
          (map (fun part =>
                  Base64Url.encode
                    (Base64Url.Buffer_from
                       (Base64Url.Buffer_toJSON_data part)))
               (parts d)))
  /\ (Forall base64url_segment (JS.split_dot s) ->
      base64Encode (base64Decode s) = s).
Proof.
  assert (Hparts : parts (base64Decode s)
                   = map Base64Url.decode (JS.split_dot s)).
  { unfold base64Decode. simpl. now rewrite forEach_push_map. }
  assert (Henc : forall d : DecodedBody,
             base64Encode d =
             JS.join_dot
               (map (fun part =>
                       Base64Url.encode
                         (Base64Url.Buffer_from
                            (Base64Url.Buffer_toJSON_data part)))
                    (parts d))).
  { intros d. unfold base64Encode. now rewrite forEach_push_map. }
  repeat split; auto.
  - rewrite Hparts. apply length_map.
  - intros Hseg. rewrite Henc, Hparts, map_map.
    rewrite <- (join_dot_split_dot s) at 2. f_equal.
    rewrite <- (map_id (JS.split_dot s)) at 2.
    apply map_ext_in. intros seg Hin.
    apply reencode_segment.
    rewrite Forall_forall in Hseg. now apply Hseg.
Qed.

Lemma base64_segmentwise_roundtrip_witness :
  Forall base64url_segment (JS.split_dot "eyJhIjoxfQ.AQID._-8")
  /\ base64Encode (base64Decode "eyJhIjoxfQ.AQID._-8") = "eyJhIjoxfQ.AQID._-8".
Proof.
  assert (H : Forall base64url_segment (JS.split_dot "eyJhIjoxfQ.AQID._-8")).
  { simpl. repeat constructor.
    - exists (Base64Url.decode "eyJhIjoxfQ"). vm_compute. reflexivity.
    - exists [x01; x02; x03]. vm_compute. reflexivity.
    - exists [xff; xef]. vm_compute. reflexivity. }
  split; [exact H|].
  exact (proj2 (proj2 (proj2
           (base64_segmentwise_roundtrip "eyJhIjoxfQ.AQID._-8"))) H).
Defined.

(** ** Key lookup *)

Section Properties.
Context {J : Jose}.

Lemma first_key_none (store : KeyStore) (alg : string) :
  no_key_for store alg -> first_key store alg = None.
Proof.
  unfold first_key, KeyStore_all, no_key_for.
  induction store as [|k store IH]; intros Hno; simpl; [reflexivity|].
  destruct (key_alg k =? alg) eqn:E.
  - apply String.eqb_eq in E. exfalso. apply (Hno k); simpl; auto.
  - apply IH. intros k' Hin. apply Hno. simpl; auto.
Qed.

Lemma first_key_first (store : KeyStore) (alg : string) (k : Key) :
  first_in_document_order store alg k -> first_key store alg = Some k.
Proof.
  intros (before & behind & -> & Halg & Hno).
  unfold first_key, KeyStore_all.
  induction before as [|k' before IH]; simpl.
  - apply String.eqb_eq in Halg. now rewrite Halg.
  - assert (E : (key_alg k' =? alg) = false).
    { apply String.eqb_neq. apply Hno. simpl; auto. }
    rewrite E. apply IH. intros k'' Hin. apply Hno. simpl; auto.
Qed.

Lemma first_key_some (store : KeyStore) (alg : string) (k : Key) :
  first_key store alg = Some k -> first_in_document_order store alg k.
Proof.
  unfold first_key, KeyStore_all, first_in_document_order.
  induction store as [|k' store IH]; simpl; [discriminate|].
  destruct (key_alg k' =? alg) eqn:E; simpl.
  - intros [= ->]. exists [], store. apply String.eqb_eq in E.
    repeat split; auto. intros ? [].
  - intros H. destruct (IH H) as (before & behind & -> & Halg & Hno).
    exists (k' :: before), behind. repeat split; auto.
    intros k'' [<-|Hin]; [now apply String.eqb_neq | now apply Hno].
Qed.

Lemma prefixb_refl (p : string) : JS.prefixb p p = true.
Proof.
  induction p as [|c p IH]; simpl; [reflexivity|].
  now rewrite Ascii.eqb_refl, IH.
Qed.

Lemma containsb_suffix (before p : string) :
  JS.containsb p (before ++ p) = true.
Proof.
  induction before as [|c before IH]; simpl.
  - destruct p; simpl; [reflexivity|].
    now rewrite Ascii.eqb_refl, prefixb_refl.
  - rewrite IH. apply orb_true_r.
Qed.

Lemma append_same_prefix (prefix a b : string) :
  (prefix ++ a)%string = (prefix ++ b)%string -> a = b.
Proof.
  induction prefix as [|c prefix IH]; simpl; [auto|].
  intros [= H]. now apply IH.
Qed.

Lemma provisioning_error_names_algorithm (alg : string) :
  no_key_with_algorithm alg
    = ("JWK set doesn't contain key with algorithm = " ++ alg)%string
  /\ JS.containsb alg (no_key_with_algorithm alg) = true.
Proof.
  split; [reflexivity|]. unfold no_key_with_algorithm.
  apply containsb_suffix.
Qed.

Lemma provisioning_error_injective (a b : string) :
  no_key_with_algorithm a = no_key_with_algorithm b -> a = b.
Proof. unfold no_key_with_algorithm. apply append_same_prefix. Qed.

Lemma provisioning_error_is_distinct (alg keyId : string) :
  no_key_with_algorithm alg <> failed_to_sign keyId
  /\ no_key_with_algorithm alg <> failed_to_encrypt keyId
  /\ no_key_with_algorithm alg <> failed_to_decrypt keyId
  /\ no_key_with_algorithm alg <> failed_to_verify keyId
  /\ no_key_with_algorithm alg <> signature_expired.
Proof. repeat split; cbn; discriminate. Qed.

(** C5. In [signBody], [encryptBody], [decryptBody] and [checkSignature]:
    when the store the operation reads has no key whose algorithm attribute
    is the required algorithm, the operation is rejected with the message
    that names this algorithm, which is none of the messages of a failed
    cryptographic operation; and when some key matches, the operation goes
    on with the first one in document order.  The message is the fixed
    text followed by the algorithm, so it contains the algorithm, and two
    algorithms never give the same message. *)
Theorem algorithm_lookup (w : World) (this : Encryption) (store : KeyStore) :
  (forall body : JS.Json,
     clientKeyStore this = Some store ->
     (no_key_for store (signAlgorithm this) ->
      signBody w this body =
      ([], JS.Rejected (no_key_with_algorithm (signAlgorithm this))))
     /\ (forall k, first_in_document_order store (signAlgorithm this) k ->
         signBody w this body = signBody_with w this k body))
  /\ (forall body : Envelope,
     hwKeyStore this = Some store ->
     (no_key_for store (encryptionAlgorithm this) ->
      encryptBody this body =
      ([], JS.Rejected (no_key_with_algorithm (encryptionAlgorithm this))))
     /\ (forall k,
         first_in_document_order store (encryptionAlgorithm this) k ->
         encryptBody this body = encryptBody_with this k body))
  /\ (forall body : Envelope,
     clientKeyStore this = Some store ->
     (no_key_for store (encryptionAlgorithm this) ->
      decryptBody this body =
      ([], JS.Rejected (no_key_with_algorithm (encryptionAlgorithm this))))
     /\ (forall k,
         first_in_document_order store (encryptionAlgorithm this) k ->
         decryptBody this body = decryptBody_with this k body))
  /\ (forall body : Envelope,
     hwKeyStore this = Some store ->
     (no_key_for store (signAlgorithm this) ->
      checkSignature w this body =
      ([], JS.Rejected (no_key_with_algorithm (signAlgorithm this))))
     /\ (forall k, first_in_document_order store (signAlgorithm this) k ->
         checkSignature w this body = checkSignature_with w this k body))
  /\ (forall alg keyId : string,
     no_key_with_algorithm alg <> failed_to_sign keyId
     /\ no_key_with_algorithm alg <> failed_to_encrypt keyId
     /\ no_key_with_algorithm alg <> failed_to_decrypt keyId
     /\ no_key_with_algorithm alg <> failed_to_verify keyId
     /\ no_key_with_algorithm alg <> signature_expired)
  /\ (forall alg : string,
     no_key_with_algorithm alg
       = ("JWK set doesn't contain key with algorithm = " ++ alg)%string
     /\ JS.containsb alg (no_key_with_algorithm alg) = true)
  /\ (forall alg alg' : string,
     no_key_with_algorithm alg = no_key_with_algorithm alg' -> alg = alg').
Proof.
  split; [|split; [|split; [|split; [|split; [|split]]]]];
    [| | | | |apply provisioning_error_names_algorithm
     |apply provisioning_error_injective].
  - intros body Hs. unfold signBody. rewrite Hs. split.
    + intros Hno. now rewrite (first_key_none _ _ Hno).
    + intros k Hk. now rewrite (first_key_first _ _ _ Hk).
  - intros body Hs. unfold encryptBody. rewrite Hs. split.
    + intros Hno. now rewrite (first_key_none _ _ Hno).
    + intros k Hk. now rewrite (first_key_first _ _ _ Hk).
  - intros body Hs. unfold decryptBody. rewrite Hs. split.
    + intros Hno. now rewrite (first_key_none _ _ Hno).
    + intros k Hk. now rewrite (first_key_first _ _ _ Hk).
  - intros body Hs. unfold checkSignature. rewrite Hs. split.
    + intros Hno. now rewrite (first_key_none _ _ Hno).
    + intros k Hk. now rewrite (first_key_first _ _ _ Hk).
  - apply provisioning_error_is_distinct.
Qed.

(** ** Expiry time *)

Lemma Math_round_thousandth (x : Z) :
  JS.Math_round (inject_Z x / inject_Z 1000)%Q = ((x + 500) / 1000)%Z.
Proof.
  unfold JS.Math_round, Qdiv, Qmult, Qplus, Qinv, inject_Z, Qfloor. simpl.
  Z.to_euclidean_division_equations. lia.
Qed.

Lemma getCurrentTime_floor (w : World) :
  getCurrentTime w = ((Date_getTime w + 500) / 1000)%Z.
Proof. unfold getCurrentTime. apply Math_round_thousandth. Qed.

Lemma getSignatureExpirationTime_floor (w : World) (this : Encryption) :
  JS.time_value (Date_getTime w + jwsExpirationMinutes this * 60000) ->
  getSignatureExpirationTime w this =
  JS.Int ((Date_getTime w + jwsExpirationMinutes this * 60000 + 500) / 1000)%Z.
Proof.
  unfold JS.time_value, getSignatureExpirationTime, JS.new_Date_getTime.
  intros Hr. apply Z.leb_le in Hr. rewrite Hr.
  now rewrite Math_round_thousandth.
Qed.

Lemma getSignatureExpirationTime_NaN (w : World) (this : Encryption) :
  ~ JS.time_value (Date_getTime w + jwsExpirationMinutes this * 60000) ->
  getSignatureExpirationTime w this = JS.NaN.
Proof.
  unfold JS.time_value, getSignatureExpirationTime, JS.new_Date_getTime.
  intros Hr.
  destruct (Z.abs (Date_getTime w + jwsExpirationMinutes this * 60000)
            <=? JS.max_time_value)%Z eqn:E; [|reflexivity].
  apply Z.leb_le in E. contradiction.
Qed.


(** ** Verification *)

Lemma expired_at_dec (now : Z) (h : JwsHeader) :
  {expired_at now h} + {~ expired_at now h}.
Proof.
  unfold expired_at. destruct (header_exp h) as [e|].
  - destruct (Z_lt_dec e now) as [Hlt|Hge].
    + left. now exists e.
    + right. intros (e' & [= <-] & Hlt). contradiction.
  - right. intros (e' & Habs & _). discriminate.
Qed.

Lemma exp_handler_expired {A} (w : World) (h : JwsHeader) :
  expired_at (getCurrentTime w) h ->
  exp_handler w h (@JS.Pending A) = JS.Rejected signature_expired.
Proof.
  intros (e & He & Hlt). unfold exp_handler. rewrite He.
  assert (E : (getCurrentTime w >? e)%Z = true) by (apply Z.gtb_lt; lia).
  now rewrite E.
Qed.

Lemma exp_handler_fresh {A} (w : World) (h : JwsHeader) :
  ~ expired_at (getCurrentTime w) h ->
  exp_handler w h (@JS.Pending A) = JS.Pending.
Proof.
  intros Hfresh. unfold exp_handler.
  destruct (header_exp h) as [e|] eqn:He; [|reflexivity].
  destruct (getCurrentTime w >? e)%Z eqn:E; [|reflexivity].
  exfalso. apply Hfresh. exists e. split; [assumption|].
  apply Z.gtb_lt in E. lia.
Qed.

(** C3. For an envelope the verifier parses, under the key [checkSignature]
    selects: the promise is rejected with the expiry message exactly when
    the header's [exp] is strictly less than the current time in seconds,
    so an [exp] equal to the current time is accepted; an expired envelope
    is rejected with that message also when its signature is valid; and
    when only the signature check fails the message is the one of the
    signature check, which differs from the expiry message. *)
Theorem expiry_gate (w : World) (this : Encryption) (store : KeyStore)
  (rawKey key : Key) (body : Envelope) (h : JwsHeader) :
  hwKeyStore this = Some store ->
  first_key store (signAlgorithm this) = Some rawKey ->
  JWK_asKey rawKey = JS.Ok key ->
  JWS_parse body = JS.Ok h ->
  let now := getCurrentTime w in
  let outcome := snd (checkSignature w this body) in
  (outcome = JS.Rejected signature_expired <-> expired_at now h)
  /\ (header_exp h = Some now -> outcome <> JS.Rejected signature_expired)
  /\ (forall result,
        expired_at now h -> JWS_check key body = Some result ->
        outcome = JS.Rejected signature_expired)
  /\ (~ expired_at now h -> JWS_check key body = None ->
      outcome = JS.Rejected (failed_to_verify (key_kid key)))
  /\ (forall result,
        ~ expired_at now h -> JWS_check key body = Some result ->
        outcome = JS.Fulfilled result)
  /\ signature_expired <> failed_to_verify (key_kid key).
Proof.
  intros Hs Hk Has Hp now outcome.
  assert (Hout : outcome =
            match JWS_check key body with
            | Some result =>
                JS.resolve result (exp_handler w h JS.Pending)
            | None =>
                JS.reject (failed_to_verify (key_kid key))
                  (exp_handler w h JS.Pending)
            end).
  { unfold outcome, checkSignature, checkSignature_with.
    rewrite Hs, Hk, Has, Hp. destruct (JWS_check key body); reflexivity. }
  assert (Hneq : signature_expired <> failed_to_verify (key_kid key))
    by (cbn; discriminate).
  assert (Hiff : outcome = JS.Rejected signature_expired
                 <-> expired_at now h).
  { rewrite Hout. split.
    - intros Hrej. destruct (expired_at_dec now h) as [|Hfresh]; [assumption|].
      rewrite (exp_handler_fresh w h Hfresh) in Hrej.
      destruct (JWS_check key body); simpl in Hrej;
        [discriminate | congruence].
    - intros Hexp. rewrite (exp_handler_expired w h Hexp).
      destruct (JWS_check key body); reflexivity. }
  repeat apply conj.
  - apply Hiff.
  - apply Hiff.
  - intros Hnow Hrej. apply Hiff in Hrej.
    destruct Hrej as (e & He & Hlt). rewrite Hnow in He.
    injection He as <-. lia.
  - intros result Hexp _. now apply Hiff.
  - intros Hfresh Hc. rewrite Hout, Hc, (exp_handler_fresh w h Hfresh).
    reflexivity.
  - intros result Hfresh Hc.
    rewrite Hout, Hc, (exp_handler_fresh w h Hfresh). reflexivity.
  - exact Hneq.
Qed.

(** ** Reading a key set *)

(** C6, as the code has it.  When [readKeySet] fails on a location that is
    not an existing file, the message is the fixed text followed by the
    location, so it carries the location; when the location exists as a
    file and reading it fails, the message is the one of the file system,
    whatever it says. *)
Theorem readKeySet_failure_message (w : World) (keySetPath e : string) :
  snd (readKeySet w keySetPath) = JS.Rejected e ->
  (fs_existsSync w keySetPath = false ->
   e = wrong_location keySetPath /\ JS.containsb keySetPath e = true)
  /\ (fs_existsSync w keySetPath = true ->
      fs_readFile w keySetPath = inr e).
Proof.
  unfold readKeySet. intros Hrej. split; intros Hex; rewrite Hex in Hrej.
  - destruct (request w keySetPath); simpl in Hrej; [discriminate|].
    injection Hrej as <-. split; [reflexivity|].
    unfold wrong_location. apply containsb_suffix.
  - destruct (fs_readFile w keySetPath) as [data|msg]; simpl in Hrej;
      [discriminate|]. now injection Hrej as ->.
Qed.

(** C8, as the code has it.  For a location that is an existing file,
    [readKeySet] issues no network request.  For any other location it
    asks the file system once whether the location exists, reads no file,
    and issues one GET. *)
Theorem readKeySet_effects (w : World) (keySetPath : string) :
  (fs_existsSync w keySetPath = true ->
   existsb is_network (fst (readKeySet w keySetPath)) = false)
  /\ (fs_existsSync w keySetPath = false ->
      fst (readKeySet w keySetPath) =
        [FsExists keySetPath; HttpGet keySetPath]
      /\ filter is_filesystem (fst (readKeySet w keySetPath)) =
           [FsExists keySetPath]
      /\ existsb is_file_read (fst (readKeySet w keySetPath)) = false).
Proof.
  unfold readKeySet. split; intros Hex; rewrite Hex.
  - destruct (fs_readFile w keySetPath); reflexivity.
  - destruct (request w keySetPath); repeat split.
Qed.

Lemma readKeySet_fetches_once (w : World) (keySetPath : string) :
  exists f : Event,
    filter is_fetch (fst (readKeySet w keySetPath)) = [f]
    /\ is_fetch_of keySetPath f = true.
Proof.
  unfold readKeySet. destruct (fs_existsSync w keySetPath).
  - exists (FsReadFile keySetPath).
    destruct (fs_readFile w keySetPath); simpl;
      now rewrite String.eqb_refl.
  - exists (HttpGet keySetPath).
    destruct (request w keySetPath); simpl; now rewrite String.eqb_refl.
Qed.

(** ** Creating the key stores *)

Lemma createKeyStore_configuration (w : World) (this : Encryption) :
  same_configuration (after (createKeyStore w this)) this.
Proof.
  unfold createKeyStore, same_configuration.
  destruct (readKeySet w (hyperwalletKeySetLocation this)) as [tr1 [|d1|e1]];
    simpl; try (repeat split; reflexivity).
  destruct (JWK_asKeyStore d1) as [hs|e|e];
    match goal with
    | |- context [readKeySet w ?loc] =>
        destruct (readKeySet w loc) as [tr2 [|d2|e2]]
    end; simpl; try (repeat split; reflexivity);
    destruct (JWK_asKeyStore d2) as [cs|e'|e']; simpl;
    repeat split; reflexivity.
Qed.

Lemma createKeyStore_fulfilled (w : World) (this : Encryption) :
  promise (createKeyStore w this) = JS.Fulfilled tt ->
  exists (d1 d2 : KeySetData) (hs cs : KeyStore),
    readKeySet w (hyperwalletKeySetLocation this)
      = (fst (readKeySet w (hyperwalletKeySetLocation this)),
         JS.Fulfilled d1)
    /\ readKeySet w (clientPrivateKeySetLocation this)
      = (fst (readKeySet w (clientPrivateKeySetLocation this)),
         JS.Fulfilled d2)
    /\ JWK_asKeyStore d1 = JS.Ok hs
    /\ JWK_asKeyStore d2 = JS.Ok cs
    /\ after (createKeyStore w this)
       = set_clientKeyStore cs (set_hwKeyStore hs this)
    /\ trace (createKeyStore w this)
       = fst (readKeySet w (hyperwalletKeySetLocation this))
         ++ fst (readKeySet w (clientPrivateKeySetLocation this)).
Proof.
  unfold createKeyStore.
  destruct (readKeySet w (hyperwalletKeySetLocation this))
    as [tr1 [|d1|e1]] eqn:R1; simpl; try discriminate.
  destruct (JWK_asKeyStore d1) as [hs|e|e] eqn:K1; simpl.
  - destruct (readKeySet w (clientPrivateKeySetLocation this))
      as [tr2 [|d2|e2]] eqn:R2; simpl; try discriminate.
    destruct (JWK_asKeyStore d2) as [cs|e|e] eqn:K2; simpl;
      try discriminate.
    intros _. exists d1, d2, hs, cs. repeat split; assumption.
  - destruct (readKeySet w (clientPrivateKeySetLocation this))
      as [tr2 [|d2|e2]] eqn:R2; simpl; try discriminate.
    destruct (JWK_asKeyStore d2) as [cs|e'|e'] eqn:K2; simpl; discriminate.
  - destruct (readKeySet w (clientPrivateKeySetLocation this))
      as [tr2 [|d2|e2]] eqn:R2; simpl; try discriminate.
    destruct (JWK_asKeyStore d2) as [cs|e'|e'] eqn:K2; simpl; discriminate.
Qed.

(** C4, as the code has it.  [createKeyStore] fills the stores one after
    the other.  When it fails because the hyperwallet location cannot be
    read, the instance is as before.  When the hyperwallet set was read
    and parsed and the call fails at the client set, the hyperwallet store
    holds the parsed set and the client store is as before. *)
Theorem createKeyStore_failure (w : World) (this : Encryption) (e : string) :
  promise (createKeyStore w this) = JS.Rejected e ->
  (forall e' : string,
     snd (readKeySet w (hyperwalletKeySetLocation this)) = JS.Rejected e' ->
     after (createKeyStore w this) = this /\ e = e')
  /\ (forall (jwkSet : KeySetData) (result : KeyStore),
        snd (readKeySet w (hyperwalletKeySetLocation this))
          = JS.Fulfilled jwkSet ->
        JWK_asKeyStore jwkSet = JS.Ok result ->
        hwKeyStore (after (createKeyStore w this)) = Some result
        /\ clientKeyStore (after (createKeyStore w this))
           = clientKeyStore this).
Proof.
  unfold createKeyStore.
  destruct (readKeySet w (hyperwalletKeySetLocation this))
    as [tr1 [|d1|e1]] eqn:R1; simpl; try discriminate.
  - intros Hrej. split.
    + intros e' [=].
    + intros jwkSet result [= <-] K1. rewrite K1 in *. simpl in *.
      destruct (readKeySet w (clientPrivateKeySetLocation this))
        as [tr2 [|d2|e2]] eqn:R2; simpl in *; try discriminate.
      * destruct (JWK_asKeyStore d2) as [cs|e'|e']; simpl in *;
          [discriminate | split; reflexivity | split; reflexivity].
      * split; reflexivity.
  - intros [= <-]. split.
    + intros e' [= <-]. split; reflexivity.
    + intros jwkSet result [=].
Qed.

(** ** The two end-to-end operations *)

Lemma signBody_no_fetch (w : World) (this : Encryption) (body : JS.Json) :
  filter is_fetch (fst (signBody w this body)) = [].
Proof.
  unfold signBody, signBody_with.
  destruct (clientKeyStore this) as [store|]; [|reflexivity].
  destruct (first_key store _) as [k|]; [|reflexivity].
  destruct (JWK_asKey k) as [key|err|err]; try reflexivity.
  destruct (JWS_createSign _ _ _); reflexivity.
Qed.

Lemma encryptBody_no_fetch (this : Encryption) (body : Envelope) :
  filter is_fetch (fst (encryptBody this body)) = [].
Proof.
  unfold encryptBody, encryptBody_with.
  destruct (hwKeyStore this) as [store|]; [|reflexivity].
  destruct (first_key store _) as [k|]; [|reflexivity].
  destruct (JWK_asKey k) as [key|err|err]; try reflexivity.
  destruct (JWE_createEncrypt _ _ _); reflexivity.
Qed.

Lemma decryptBody_no_fetch (this : Encryption) (body : Envelope) :
  filter is_fetch (fst (decryptBody this body)) = [].
Proof.
  unfold decryptBody, decryptBody_with.
  destruct (clientKeyStore this) as [store|]; [|reflexivity].
  destruct (first_key store _) as [k|]; [|reflexivity].
  destruct (JWK_asKey k) as [key|err|err]; try reflexivity.
  destruct (JWE_createDecrypt _ _); reflexivity.
Qed.

Lemma checkSignature_no_fetch (w : World) (this : Encryption)
  (body : Envelope) :
  filter is_fetch (fst (checkSignature w this body)) = [].
Proof.
  unfold checkSignature, checkSignature_with.
  destruct (hwKeyStore this) as [store|]; [|reflexivity].
  destruct (first_key store _) as [k|]; [|reflexivity].
  destruct (JWK_asKey k) as [key|err|err]; try reflexivity.
  destruct (JWS_parse body); try reflexivity.
  destruct (JWS_check key body); reflexivity.
Qed.

(** What [encrypt] does after its key-store promise. *)
Lemma encrypt_after_trace (w : World) (this : Encryption) (body : JS.Json) :
  after (encrypt w this body) = after (encrypt_keyStorePromise w this)
  /\ filter is_fetch (trace (encrypt w this body))
     = filter is_fetch (trace (encrypt_keyStorePromise w this)).
Proof.
  unfold encrypt.
  destruct (promise (encrypt_keyStorePromise w this)) as [|[]|e]; simpl;
    try (split; reflexivity).
  pose proof (signBody_no_fetch w (after (encrypt_keyStorePromise w this))
                body) as Hs.
  destruct (signBody w _ body) as [tr_sign [|signed|e]]; simpl in *;
    try (split; [reflexivity | now rewrite filter_app, Hs, app_nil_r]).
  pose proof (encryptBody_no_fetch (after (encrypt_keyStorePromise w this))
                signed) as He.
  destruct (encryptBody _ signed) as [tr_enc encrypted]; simpl in *.
  split; [reflexivity|].
  now rewrite !filter_app, Hs, He, !app_nil_r.
Qed.

(** What [decrypt] does after its key-store promise. *)
Lemma decrypt_after_trace (w : World) (this : Encryption) (body : Envelope) :
  after (decrypt w this body) = after (decrypt_keyStorePromise w this)
  /\ filter is_fetch (trace (decrypt w this body))
     = filter is_fetch (trace (decrypt_keyStorePromise w this)).
Proof.
  unfold decrypt.
  destruct (promise (decrypt_keyStorePromise w this)) as [|[]|e]; simpl;
    try (split; reflexivity).
  pose proof (decryptBody_no_fetch (after (decrypt_keyStorePromise w this))
                body) as Hd.
  destruct (decryptBody _ body) as [tr_dec [|plain|e]]; simpl in *;
    try (split; [reflexivity | now rewrite filter_app, Hd, app_nil_r]).
  pose proof (checkSignature_no_fetch w
                (after (decrypt_keyStorePromise w this)) plain) as Hc.
  destruct (checkSignature w _ plain) as [tr_chk verified]; simpl in *.
  split; [reflexivity|].
  now rewrite !filter_app, Hd, Hc, !app_nil_r.
Qed.

Lemma both_stores_hw_store (this : Encryption) :
  both_stores this = true -> hw_store this = true.
Proof.
  unfold both_stores, hw_store.
  destruct (clientKeyStore this), (hwKeyStore this); auto.
Qed.


(** [decrypt] on an instance that has the hyperwallet store and lacks the
    client store: no store is created, and [decryptBody] reads [.all] of
    the missing store. *)
Lemma decrypt_hw_store_only (w : World) (this : Encryption) (hs : KeyStore)
  (body : Envelope) :
  hwKeyStore this = Some hs ->
  clientKeyStore this = None ->
  decrypt w this body =
  {| after := this;
     trace := [UnhandledRejection undefined_store];
     promise := JS.Pending |}.
Proof.
  intros Hhw Hc. unfold decrypt, decrypt_keyStorePromise, hw_store.
  rewrite Hhw. simpl. unfold decryptBody. now rewrite Hc.
Qed.


End Properties.

(** ** The properties on a concrete machine *)

Section Concrete.
Existing Instance Toy.jose.






(** C2.  The claim holds of the specification and fails on the code:
    [decrypt] tests the hyperwallet store only.  On an instance whose client
    location cannot be read, a first [decrypt] is rejected and leaves the
    hyperwallet store populated and the client store absent; a second
    [decrypt] then creates no store, and [decryptBody] reads [.all] of the
    absent client store, so that the promise is never settled. *)
Theorem decrypt_reads_absent_client_store :
  let first := decrypt (Toy.world 0) Toy.no_client Toy.Garbage in
  let second := decrypt (Toy.world 0) (after first) Toy.Garbage in
  promise first = JS.Rejected (wrong_location "/nope")
  /\ hwKeyStore (after first) = Some Toy.hyperwallet_keys
  /\ clientKeyStore (after first) = None
  /\ trace second = [UnhandledRejection undefined_store]
  /\ promise second = JS.Pending
  /\ clientKeyStore (after second) = None
  /\ both_stores (after first) = false.
Proof.
  intros first second.
  assert (H1 : hwKeyStore (after first) = Some Toy.hyperwallet_keys)
    by reflexivity.
  assert (H2 : clientKeyStore (after first) = None) by reflexivity.
  unfold second.
  rewrite (decrypt_hw_store_only (Toy.world 0) (after first)
             Toy.hyperwallet_keys Toy.Garbage H1 H2).
  repeat split.
Qed.

Lemma expiry_gate_witness :
  snd (checkSignature (Toy.world 300500) Toy.ready Toy.signed_until_300)
    = JS.Rejected signature_expired
  /\ snd (checkSignature (Toy.world 300499) Toy.ready Toy.signed_until_300)
     <> JS.Rejected signature_expired.
Proof.
  split.
  - apply (expiry_gate (Toy.world 300500) Toy.ready Toy.hyperwallet_keys
             Toy.hw_sig Toy.hw_sig Toy.signed_until_300
             {| header_alg := "RS256"; header_kid := "hw-sig";
                header_crit := ["exp"]; header_exp := Some 300%Z |}
             eq_refl eq_refl eq_refl eq_refl).
    exists 300%Z. split; reflexivity.
  - apply (expiry_gate (Toy.world 300499) Toy.ready Toy.hyperwallet_keys
             Toy.hw_sig Toy.hw_sig Toy.signed_until_300
             {| header_alg := "RS256"; header_kid := "hw-sig";
                header_crit := ["exp"]; header_exp := Some 300%Z |}
             eq_refl eq_refl eq_refl eq_refl).
    reflexivity.
Defined.

Lemma createKeyStore_failure_witness :
  promise (createKeyStore (Toy.world 0) Toy.no_client)
    = JS.Rejected (wrong_location "/nope")
  /\ hwKeyStore (after (createKeyStore (Toy.world 0) Toy.no_client))
     = Some Toy.hyperwallet_keys
  /\ clientKeyStore (after (createKeyStore (Toy.world 0) Toy.no_client))
     = clientKeyStore Toy.no_client.
Proof.
  split; [reflexivity|].
  apply (proj2 (createKeyStore_failure (Toy.world 0) Toy.no_client
                  (wrong_location "/nope") eq_refl)
           (KeySetText "HYPERWALLET-JWKS") Toy.hyperwallet_keys
           eq_refl eq_refl).
Defined.

(** The claim C4 as it is stated: a failed [createKeyStore] on a new
    instance leaves the hyperwallet store populated and the client store
    absent. *)
Lemma createKeyStore_leaves_one_store :
  hwKeyStore Toy.no_client = None
  /\ clientKeyStore Toy.no_client = None
  /\ promise (createKeyStore (Toy.world 0) Toy.no_client)
     = JS.Rejected (wrong_location "/nope")
  /\ hwKeyStore (after (createKeyStore (Toy.world 0) Toy.no_client))
     = Some Toy.hyperwallet_keys
  /\ clientKeyStore (after (createKeyStore (Toy.world 0) Toy.no_client))
     = None.
Proof. repeat split. Qed.

(** A malformed hyperwallet document: the first handler calls [reject] and
    returns, the chain goes on, and the client store is assigned although
    the call is rejected. *)
Example createKeyStore_after_malformed_hyperwallet_set :
  let this :=
    @default_Encryption Toy.jose "/keys/client.json" "/keys/broken.json" in
  promise (createKeyStore (Toy.world 0) this)
    = JS.Rejected failed_to_create_keyStore
  /\ hwKeyStore (after (createKeyStore (Toy.world 0) this)) = None
  /\ clientKeyStore (after (createKeyStore (Toy.world 0) this))
     = Some Toy.client_keys.
Proof. repeat split. Qed.

Lemma algorithm_lookup_witness :
  signBody (Toy.world 0) Toy.es256_only Toy.amount_100
    = ([], JS.Rejected (no_key_with_algorithm "RS256"))
  /\ signBody (Toy.world 0) Toy.ready Toy.amount_100
     = signBody_with (Toy.world 0) Toy.ready Toy.client_sig Toy.amount_100.
Proof.
  split.
  - apply (proj1 (algorithm_lookup (Toy.world 0) Toy.es256_only
                    Toy.es256_keys)
             Toy.amount_100 eq_refl).
    intros k [<-|[]]. discriminate.
  - apply (proj1 (algorithm_lookup (Toy.world 0) Toy.ready Toy.client_keys)
             Toy.amount_100 eq_refl).
    exists [], [Toy.client_enc]. repeat split. intros k [].
Defined.

Lemma readKeySet_failure_message_witness :
  snd (readKeySet (Toy.world 0) "/nope") = JS.Rejected (wrong_location "/nope")
  /\ JS.containsb "/nope" (wrong_location "/nope") = true.
Proof.
  split; [reflexivity|].
  apply (proj1 (readKeySet_failure_message (Toy.world 0) "/nope"
                  (wrong_location "/nope") eq_refl) eq_refl).
Defined.

(** The claim C6 as it is stated: the location exists as a file (here a
    directory), reading it fails, and the message of the error does not
    contain the location. *)
Lemma readKeySet_file_error_without_location :
  fs_existsSync (Toy.world 0) "/keys" = true
  /\ snd (readKeySet (Toy.world 0) "/keys")
     = JS.Rejected "EISDIR: illegal operation on a directory, read"
  /\ JS.containsb "/keys" "EISDIR: illegal operation on a directory, read"
     = false.
Proof. repeat split. Qed.



Lemma readKeySet_effects_witness :
  existsb is_network (fst (readKeySet (Toy.world 0) "/keys/hw.json")) = false
  /\ fst (readKeySet (Toy.world 0) "https://keys.test/hw")
     = [FsExists "https://keys.test/hw"; HttpGet "https://keys.test/hw"].
Proof.
  split.
  - apply (proj1 (readKeySet_effects (Toy.world 0) "/keys/hw.json") eq_refl).
  - apply (proj2 (readKeySet_effects (Toy.world 0) "https://keys.test/hw")
             eq_refl).
Defined.

(** The claim C8 as it is stated: for a URL that is no file, [readKeySet]
    does go to the file system, to ask whether the location exists. *)
Lemma readKeySet_url_touches_filesystem :
  fs_existsSync (Toy.world 0) "https://keys.test/hw" = false
  /\ existsb is_filesystem
       (fst (readKeySet (Toy.world 0) "https://keys.test/hw")) = true
  /\ In (FsExists "https://keys.test/hw")
       (fst (readKeySet (Toy.world 0) "https://keys.test/hw")).
Proof. repeat split. simpl. auto. Qed.



End Concrete.

(* ================================================================== *)
(** * Part III: further properties of the class *)
(* ================================================================== *)

Local Open Scope nat_scope.

(** ** The segment-wise helpers *)

Lemma split_dot_length (s : string) :
  List.length (JS.split_dot s) = S (count_dots s).
Proof.
  induction s as [|c rest IH]; [reflexivity|].
  simpl. destruct (Ascii.eqb c "."); simpl; [now rewrite IH|].
  destruct (JS.split_dot rest) as [|seg segs] eqn:E; simpl in *;
    [discriminate | exact IH].
Qed.

Lemma split_dot_dotless (s : string) :
  count_dots s = 0 -> JS.split_dot s = [s].
Proof.
  induction s as [|c rest IH]; [reflexivity|].
  simpl. destruct (Ascii.eqb c "."); [discriminate|].
  intros H. now rewrite (IH H).
Qed.

Lemma split_dot_segment (seg rest : string) :
  count_dots seg = 0 ->
  JS.split_dot (seg ++ String "." rest) = seg :: JS.split_dot rest.
Proof.
  induction seg as [|c seg IH]; [reflexivity|].
  simpl. destruct (Ascii.eqb c "."); [discriminate|].
  intros H. now rewrite (IH H).
Qed.

Lemma split_dot_join_dot (segs : list string) :
  segs <> [] -> Forall (fun seg => count_dots seg = 0) segs ->
  JS.split_dot (JS.join_dot segs) = segs.
Proof.
  induction segs as [|seg segs IH]; [congruence|].
  intros _ Hd. inversion_clear Hd as [|? ? Hseg Hrest].
  destruct segs as [|seg' segs].
  - simpl. now apply split_dot_dotless.
  - change (JS.join_dot (seg :: seg' :: segs))
      with (seg ++ String "." (JS.join_dot (seg' :: segs)))%string.
    rewrite (split_dot_segment _ _ Hseg), IH; [reflexivity|discriminate|].
    exact Hrest.
Qed.

Lemma sextet_char_not_dot (n : N) : Base64Url.sextet_char n <> "."%char.
Proof.
  unfold Base64Url.sextet_char.
  destruct (nth_in_or_default (N.to_nat n) Base64Url.alphabet "A"%char)
    as [Hin | Hd]; [|rewrite Hd; discriminate].
  revert Hin. generalize (nth (N.to_nat n) Base64Url.alphabet "A"%char).
  intros c Hin.
  assert (Hall : forallb (fun a => negb (Ascii.eqb a "."))
                   Base64Url.alphabet = true) by reflexivity.
  rewrite forallb_forall in Hall. specialize (Hall c Hin).
  intros ->. discriminate.
Qed.

Lemma encode_dotless (b : Base64Url.Buffer) :
  count_dots (Base64Url.encode b) = 0.
Proof.
  unfold Base64Url.encode.
  generalize (Base64Url.sextets_of_octets (map Byte.to_N b)).
  induction l as [|n l IH]; [reflexivity|].
  simpl. destruct (Ascii.eqb (Base64Url.sextet_char n) ".") eqn:E;
    [|exact IH].
  apply Ascii.eqb_eq in E. now destruct (sextet_char_not_dot n).
Qed.

Lemma base64Decode_base64Encode (d : DecodedBody) :
  parts d <> [] -> base64Decode (base64Encode d) = d.
Proof.
  intros Hne. destruct d as [ps]. simpl in Hne.
  unfold base64Decode, base64Encode. simpl.
  rewrite !forEach_push_map. simpl. f_equal.
  rewrite split_dot_join_dot.
  - rewrite map_map. rewrite <- (map_id ps) at 2. apply map_ext.
    intros part. now rewrite decode_encode, Buffer_from_toJSON.
  - destruct ps; [congruence | discriminate].
  - apply Forall_forall. intros seg Hin. apply in_map_iff in Hin.
    destruct Hin as (part & <- & _). apply encode_dotless.
Qed.

Lemma base64Decode_parts_not_nil (s : string) : parts (base64Decode s) <> [].
Proof.
  unfold base64Decode. simpl. rewrite forEach_push_map. simpl.
  pose proof (split_dot_not_nil s).
  destruct (JS.split_dot s); [congruence | discriminate].
Qed.

(** X1. [base64Decode] returns one part more than the string has dots: an
    empty string gives one (empty) part, and the list of parts is never
    empty. *)
Theorem base64Decode_part_count (s : string) :
  List.length (parts (base64Decode s)) = S (count_dots s)
  /\ parts (base64Decode s) <> []
  /\ parts (base64Decode "") = [[]].
Proof.
  repeat split.
  - unfold base64Decode. simpl. rewrite forEach_push_map. simpl.
    rewrite length_map. apply split_dot_length.
  - apply base64Decode_parts_not_nil.
Qed.

(** X2. Decoding what [base64Encode] wrote gives the parts back, for every
    body that has at least one part; a body without parts is written as the
    empty string, which decodes to one empty part. *)
Theorem base64Encode_then_base64Decode (d : DecodedBody) :
  (parts d <> [] -> base64Decode (base64Encode d) = d)
  /\ (parts d = [] ->
      base64Encode d = ""
      /\ parts (base64Decode (base64Encode d)) = [[]]).
Proof.
  split.
  - apply base64Decode_base64Encode.
  - intros Hnil. destruct d as [ps]. simpl in Hnil. subst ps.
    split; reflexivity.
Qed.

Lemma base64Encode_then_base64Decode_witness :
  base64Decode (base64Encode {| parts := [[x01; x02; x03]; []; [xff]] |})
  = {| parts := [[x01; x02; x03]; []; [xff]] |}.
Proof.
  apply (proj1 (base64Encode_then_base64Decode
                  {| parts := [[x01; x02; x03]; []; [xff]] |})).
  discriminate.
Defined.

(** X3. On every string, decoding and re-encoding is a normalisation: the
    re-encoded string decodes to the same parts, and normalising twice
    gives what normalising once gives. *)
Theorem base64_normalisation_idempotent (s : string) :
  base64Decode (base64Encode (base64Decode s)) = base64Decode s
  /\ base64Encode (base64Decode (base64Encode (base64Decode s)))
     = base64Encode (base64Decode s).
Proof.
  assert (H : base64Decode (base64Encode (base64Decode s)) = base64Decode s)
    by (apply base64Decode_base64Encode, base64Decode_parts_not_nil).
  split; [exact H | now rewrite H].
Qed.

(** ** Clock and expiry *)

Section Further.
Context {J : Jose}.

Lemma expiry_is_window_after_now_aux (w : World) (this : Encryption) :
  JS.time_value (Date_getTime w + jwsExpirationMinutes this * 60000) ->
  getSignatureExpirationTime w this
    = JS.Int (getCurrentTime w + 60 * jwsExpirationMinutes this)%Z.
Proof.
  intros Hr.
  rewrite (getSignatureExpirationTime_floor w this Hr), getCurrentTime_floor.
  f_equal. Z.to_euclidean_division_equations. lia.
Qed.

(** X4. For a window of a whole number of minutes: when the clock plus the
    window is a time value, the expiry time is the current time in seconds
    plus sixty seconds for every minute of the window, and otherwise it is
    [NaN]; the current time in seconds is within half a second of the
    clock and never runs backwards with it. *)
Theorem expiry_is_window_after_now (w : World) (this : Encryption) :
  (JS.time_value (Date_getTime w + jwsExpirationMinutes this * 60000) ->
   getSignatureExpirationTime w this
     = JS.Int (getCurrentTime w + 60 * jwsExpirationMinutes this)%Z)
  /\ (~ JS.time_value (Date_getTime w + jwsExpirationMinutes this * 60000) ->
      getSignatureExpirationTime w this = JS.NaN)
  /\ (Date_getTime w - 500 < 1000 * getCurrentTime w <= Date_getTime w + 500)%Z
  /\ (forall w' : World,
        (Date_getTime w <= Date_getTime w')%Z ->
        (getCurrentTime w <= getCurrentTime w')%Z).
Proof.
  split; [apply expiry_is_window_after_now_aux|].
  split; [apply getSignatureExpirationTime_NaN|]. split.
  - rewrite getCurrentTime_floor.
    Z.to_euclidean_division_equations. lia.
  - intros w' Hle. rewrite !getCurrentTime_floor.
    apply Z.div_le_mono; lia.
Qed.

Lemma exp_handler_rejects_iff {A} (w : World) (h : JwsHeader) :
  exp_handler w h (@JS.Pending A) = JS.Rejected signature_expired
  <-> expired_at (getCurrentTime w) h.
Proof.
  split.
  - intros Hrej. destruct (expired_at_dec (getCurrentTime w) h)
      as [|Hfresh]; [assumption|].
    rewrite (exp_handler_fresh w h Hfresh) in Hrej. discriminate.
  - apply exp_handler_expired.
Qed.

(** X5. An envelope signed under the header [signBody] builds at one
    clock, for a window of a whole number of minutes.  When the signing
    clock plus the window is a time value, the [exp] handler turns the
    envelope down at another clock exactly when the later time in seconds
    exceeds the earlier by more than the window; it accepts for the whole
    window counted in milliseconds, and turns down from one second after
    the window on.  When it is not a time value, [exp] is written as
    [null], and the handler turns the envelope down exactly when the
    current time in seconds is positive. *)
Theorem freshness_window (w1 w2 : World) (this : Encryption) (key : Key) :
  let h := header_of_sign (signHeader w1 this key) in
  let m := jwsExpirationMinutes this in
  (JS.time_value (Date_getTime w1 + m * 60000) ->
   (exp_handler w2 h (@JS.Pending unit) = JS.Rejected signature_expired
    <-> (getCurrentTime w1 + 60 * m < getCurrentTime w2)%Z)
   /\ ((Date_getTime w2 <= Date_getTime w1 + 60000 * m)%Z ->
       exp_handler w2 h (@JS.Pending unit) = JS.Pending)
   /\ ((Date_getTime w1 + 60000 * m + 1000 <= Date_getTime w2)%Z ->
       exp_handler w2 h (@JS.Pending unit)
       = JS.Rejected signature_expired))
  /\ (~ JS.time_value (Date_getTime w1 + m * 60000) ->
      (exp_handler w2 h (@JS.Pending unit) = JS.Rejected signature_expired
       <-> (0 < getCurrentTime w2)%Z)).
Proof.
  intros h m.
  assert (Hgate : forall e : Z,
             header_exp h = Some e ->
             (exp_handler w2 h (@JS.Pending unit)
              = JS.Rejected signature_expired
              <-> (e < getCurrentTime w2)%Z)).
  { intros e He. rewrite exp_handler_rejects_iff.
    unfold expired_at. rewrite He. split.
    - intros (e' & [= <-] & Hlt). exact Hlt.
    - intros Hlt. exists e. split; [reflexivity | exact Hlt]. }
  split.
  - intros Hr.
    assert (Hexp : header_exp h = Some (getCurrentTime w1 + 60 * m)%Z).
    { unfold h, header_of_sign, signHeader. simpl.
      now rewrite (expiry_is_window_after_now_aux w1 this Hr). }
    pose proof (Hgate _ Hexp) as Hiff.
    split; [exact Hiff|]. split.
    + intros Hle. apply exp_handler_fresh. intros Hexpd.
      apply (exp_handler_rejects_iff (A := unit)) in Hexpd.
      apply Hiff in Hexpd. rewrite !getCurrentTime_floor in Hexpd.
      revert Hexpd. Z.to_euclidean_division_equations. lia.
    + intros Hle. apply Hiff.
      rewrite !getCurrentTime_floor.
      Z.to_euclidean_division_equations. lia.
  - intros Hr.
    assert (Hexp : header_exp h = Some 0%Z).
    { unfold h, header_of_sign, signHeader. simpl.
      now rewrite (getSignatureExpirationTime_NaN w1 this Hr). }
    exact (Hgate _ Hexp).
Qed.

(** ** What a fulfilled promise tells *)

Lemma keyStorePromise_configuration (w : World) (this : Encryption) :
  same_configuration (after (encrypt_keyStorePromise w this)) this
  /\ same_configuration (after (decrypt_keyStorePromise w this)) this.
Proof.
  unfold encrypt_keyStorePromise, decrypt_keyStorePromise. split.
  - destruct (both_stores this);
      [repeat split | apply createKeyStore_configuration].
  - destruct (hw_store this);
      [repeat split | apply createKeyStore_configuration].
Qed.

Lemma signBody_fulfilled (w : World) (this : Encryption) (body : JS.Json)
  (signed : Envelope) :
  snd (signBody w this body) = JS.Fulfilled signed ->
  exists (cs : KeyStore) (rawKey signer : Key),
    clientKeyStore this = Some cs
    /\ first_in_document_order cs (signAlgorithm this) rawKey
    /\ JWK_asKey rawKey = JS.Ok signer
    /\ JWS_createSign (signHeader w this signer) signer (JSON_stringify body)
       = JS.Ok signed.
Proof.
  unfold signBody, signBody_with.
  destruct (clientKeyStore this) as [cs|]; [|discriminate].
  destruct (first_key cs (signAlgorithm this)) as [rawKey|] eqn:Hk;
    [|discriminate].
  destruct (JWK_asKey rawKey) as [signer|e|e] eqn:Has; try discriminate.
  destruct (JWS_createSign _ _ _) as [s0|e|e] eqn:Hs; try discriminate.
  simpl. intros [= <-]. exists cs, rawKey, signer.
  repeat split; auto. now apply first_key_some.
Qed.

Lemma encryptBody_fulfilled (this : Encryption) (body sealed : Envelope) :
  snd (encryptBody this body) = JS.Fulfilled sealed ->
  exists (hs : KeyStore) (rawKey public : Key),
    hwKeyStore this = Some hs
    /\ first_in_document_order hs (encryptionAlgorithm this) rawKey
    /\ JWK_asKey rawKey = JS.Ok public
    /\ JWE_createEncrypt (encryptionHeader this public) public body
       = JS.Ok sealed.
Proof.
  unfold encryptBody, encryptBody_with.
  destruct (hwKeyStore this) as [hs|]; [|discriminate].
  destruct (first_key hs (encryptionAlgorithm this)) as [rawKey|] eqn:Hk;
    [|discriminate].
  destruct (JWK_asKey rawKey) as [public|e|e] eqn:Has; try discriminate.
  destruct (JWE_createEncrypt _ _ _) as [s0|e|e] eqn:Hs; try discriminate.
  simpl. intros [= <-]. exists hs, rawKey, public.
  repeat split; auto. now apply first_key_some.
Qed.

Lemma decryptBody_fulfilled (this : Encryption) (body plain : Envelope) :
  snd (decryptBody this body) = JS.Fulfilled plain ->
  exists (cs : KeyStore) (rawKey private : Key),
    clientKeyStore this = Some cs
    /\ first_in_document_order cs (encryptionAlgorithm this) rawKey
    /\ JWK_asKey rawKey = JS.Ok private
    /\ JWE_createDecrypt private body = JS.Ok plain.
Proof.
  unfold decryptBody, decryptBody_with.
  destruct (clientKeyStore this) as [cs|]; [|discriminate].
  destruct (first_key cs (encryptionAlgorithm this)) as [rawKey|] eqn:Hk;
    [|discriminate].
  destruct (JWK_asKey rawKey) as [private|e|e] eqn:Has; try discriminate.
  destruct (JWE_createDecrypt _ _) as [s0|e|e] eqn:Hs; try discriminate.
  simpl. intros [= <-]. exists cs, rawKey, private.
  repeat split; auto. now apply first_key_some.
Qed.

Lemma checkSignature_fulfilled_inv (w : World) (this : Encryption)
  (body : Envelope) (result : VerificationResult Key) :
  snd (checkSignature w this body) = JS.Fulfilled result ->
  exists (hs : KeyStore) (rawKey verifier : Key) (h : JwsHeader),
    hwKeyStore this = Some hs
    /\ first_in_document_order hs (signAlgorithm this) rawKey
    /\ JWK_asKey rawKey = JS.Ok verifier
    /\ JWS_parse body = JS.Ok h
    /\ ~ expired_at (getCurrentTime w) h
    /\ JWS_check verifier body = Some result.
Proof.
  unfold checkSignature, checkSignature_with.
  destruct (hwKeyStore this) as [hs|]; [|discriminate].
  destruct (first_key hs (signAlgorithm this)) as [rawKey|] eqn:Hk;
    [|discriminate].
  destruct (JWK_asKey rawKey) as [verifier|e|e] eqn:Has; try discriminate.
  destruct (JWS_parse body) as [h|e|e] eqn:Hp; try discriminate.
  destruct (expired_at_dec (getCurrentTime w) h) as [Hexp|Hfresh].
  - rewrite (exp_handler_expired w h Hexp).
    destruct (JWS_check verifier body); discriminate.
  - rewrite (exp_handler_fresh w h Hfresh).
    destruct (JWS_check verifier body) as [r|] eqn:Hc; [|discriminate].
    simpl. intros [= <-]. exists hs, rawKey, verifier, h.
    repeat split; auto. now apply first_key_some.
Qed.

(** X6. A promise of [checkSignature] is fulfilled only for an envelope the
    verifier parsed, whose [exp] (if any) is not before the current time in
    seconds, and whose signature the first key of the hyperwallet store for
    the signing algorithm accepted; the result is the one of that check. *)
Theorem checkSignature_fulfilled (w : World) (this : Encryption)
  (body : Envelope) (result : VerificationResult Key) :
  snd (checkSignature w this body) = JS.Fulfilled result ->
  exists (hs : KeyStore) (rawKey verifier : Key) (h : JwsHeader),
    hwKeyStore this = Some hs
    /\ first_in_document_order hs (signAlgorithm this) rawKey
    /\ JWK_asKey rawKey = JS.Ok verifier
    /\ JWS_parse body = JS.Ok h
    /\ ~ expired_at (getCurrentTime w) h
    /\ JWS_check verifier body = Some result.
Proof. apply checkSignature_fulfilled_inv. Qed.

(** X7. Sign, then encrypt.  When [encrypt] is fulfilled, both stores are
    in place, the JSON text of the body was signed with the first client
    key for the signing algorithm under the header of [signBody], and the
    envelope returned is the encryption of that signed text, and of nothing
    else, with the first hyperwallet key for the encryption algorithm. *)
Theorem encrypt_fulfilled (w : World) (this : Encryption) (body : JS.Json)
  (envelope : Envelope) :
  promise (encrypt w this body) = JS.Fulfilled envelope ->
  exists (cs hs : KeyStore) (rawS signer rawP public : Key)
         (signed : Envelope),
    clientKeyStore (after (encrypt w this body)) = Some cs
    /\ hwKeyStore (after (encrypt w this body)) = Some hs
    /\ first_in_document_order cs (signAlgorithm this) rawS
    /\ JWK_asKey rawS = JS.Ok signer
    /\ JWS_createSign (signHeader w this signer) signer (JSON_stringify body)
       = JS.Ok signed
    /\ first_in_document_order hs (encryptionAlgorithm this) rawP
    /\ JWK_asKey rawP = JS.Ok public
    /\ JWE_createEncrypt (encryptionHeader this public) public signed
       = JS.Ok envelope.
Proof.
  destruct (keyStorePromise_configuration w this)
    as [(_ & _ & Henc & Hsa & Hem & Hmin) _].
  unfold encrypt.
  destruct (promise (encrypt_keyStorePromise w this)) as [|[]|e];
    simpl; try discriminate.
  destruct (signBody w (after (encrypt_keyStorePromise w this)) body)
    as [tr_sign [|signed|e]] eqn:Hs; simpl; try discriminate.
  destruct (encryptBody (after (encrypt_keyStorePromise w this)) signed)
    as [tr_enc encrypted] eqn:He; simpl.
  intros ->.
  destruct (signBody_fulfilled w _ body signed (f_equal snd Hs))
    as (cs & rawS & signer & Hcs & Hfs & Has & Hsign).
  destruct (encryptBody_fulfilled _ signed envelope (f_equal snd He))
    as (hs & rawP & public & Hhs & Hfp & Hap & Hseal).
  exists cs, hs, rawS, signer, rawP, public, signed.
  rewrite Hsa in Hfs. rewrite Henc in Hfp.
  assert (Hh : signHeader w (after (encrypt_keyStorePromise w this)) signer
               = signHeader w this signer).
  { unfold signHeader, getSignatureExpirationTime. now rewrite Hmin. }
  assert (Hh' : encryptionHeader (after (encrypt_keyStorePromise w this))
                  public = encryptionHeader this public).
  { unfold encryptionHeader. now rewrite Hem. }
  rewrite Hh in Hsign. rewrite Hh' in Hseal.
  repeat split; assumption.
Qed.

(** X8. Decrypt, then verify.  When [decrypt] is fulfilled, the envelope
    was decrypted with the first client key for the encryption algorithm,
    and the plaintext passed [checkSignature]: it was parsed, its [exp] is
    not before the current time in seconds, and the first hyperwallet key
    for the signing algorithm accepted its signature. *)
Theorem decrypt_fulfilled (w : World) (this : Encryption) (body : Envelope)
  (result : VerificationResult Key) :
  promise (decrypt w this body) = JS.Fulfilled result ->
  exists (cs hs : KeyStore) (rawD private rawV verifier : Key)
         (plain : Envelope) (h : JwsHeader),
    clientKeyStore (after (decrypt w this body)) = Some cs
    /\ hwKeyStore (after (decrypt w this body)) = Some hs
    /\ first_in_document_order cs (encryptionAlgorithm this) rawD
    /\ JWK_asKey rawD = JS.Ok private
    /\ JWE_createDecrypt private body = JS.Ok plain
    /\ first_in_document_order hs (signAlgorithm this) rawV
    /\ JWK_asKey rawV = JS.Ok verifier
    /\ JWS_parse plain = JS.Ok h
    /\ ~ expired_at (getCurrentTime w) h
    /\ JWS_check verifier plain = Some result.
Proof.
  destruct (keyStorePromise_configuration w this)
    as [_ (_ & _ & Henc & Hsa & Hem & Hmin)].
  unfold decrypt.
  destruct (promise (decrypt_keyStorePromise w this)) as [|[]|e];
    simpl; try discriminate.
  destruct (decryptBody (after (decrypt_keyStorePromise w this)) body)
    as [tr_dec [|plain|e]] eqn:Hd; simpl; try discriminate.
  destruct (checkSignature w (after (decrypt_keyStorePromise w this)) plain)
    as [tr_chk verified] eqn:Hc; simpl.
  intros ->.
  destruct (decryptBody_fulfilled _ body plain (f_equal snd Hd))
    as (cs & rawD & private & Hcs & Hfd & Had & Hopen).
  destruct (checkSignature_fulfilled_inv w _ plain result (f_equal snd Hc))
    as (hs & rawV & verifier & h & Hhs & Hfv & Hav & Hp & Hfresh & Hchk).
  exists cs, hs, rawD, private, rawV, verifier, plain, h.
  rewrite Henc in Hfd. rewrite Hsa in Hfv.
  repeat split; assumption.
Qed.

(** ** Promises that are never settled *)

Lemma readKeySet_settles (w : World) (keySetPath : string) :
  snd (readKeySet w keySetPath) <> JS.Pending
  /\ existsb is_unhandled (fst (readKeySet w keySetPath)) = false.
Proof.
  unfold readKeySet. destruct (fs_existsSync w keySetPath).
  - destruct (fs_readFile w keySetPath); split; simpl;
      [discriminate | reflexivity | discriminate | reflexivity].
  - destruct (request w keySetPath); split; simpl;
      [discriminate | reflexivity | discriminate | reflexivity].
Qed.

Lemma createKeyStore_settles (w : World) (this : Encryption) :
  promise (createKeyStore w this) <> JS.Pending
  /\ existsb is_unhandled (trace (createKeyStore w this)) = false.
Proof.
  unfold createKeyStore.
  destruct (readKeySet_settles w (hyperwalletKeySetLocation this))
    as [Hp1 Hu1].
  destruct (readKeySet w (hyperwalletKeySetLocation this))
    as [tr1 [|d1|e1]]; simpl in *; [congruence| |split; [discriminate|auto]].
  assert (Hloc : forall r : KeyStore,
             clientPrivateKeySetLocation (set_hwKeyStore r this)
             = clientPrivateKeySetLocation this) by reflexivity.
  destruct (readKeySet_settles w (clientPrivateKeySetLocation this))
    as [Hp2 Hu2].
  destruct (JWK_asKeyStore d1) as [hs|e|e]; try rewrite Hloc;
    destruct (readKeySet w (clientPrivateKeySetLocation this))
      as [tr2 [|d2|e2]]; simpl in *; try congruence;
    rewrite ?existsb_app, ?Hu1, ?Hu2;
    try (split; [discriminate | reflexivity]);
    destruct (JWK_asKeyStore d2) as [cs|e'|e']; simpl;
    rewrite ?existsb_app, ?Hu1, ?Hu2; split; try discriminate; reflexivity.
Qed.

Lemma keyStorePromise_settles (w : World) (this : Encryption) :
  (promise (encrypt_keyStorePromise w this) <> JS.Pending
   /\ existsb is_unhandled (trace (encrypt_keyStorePromise w this)) = false)
  /\ (promise (decrypt_keyStorePromise w this) <> JS.Pending
      /\ existsb is_unhandled (trace (decrypt_keyStorePromise w this))
         = false).
Proof.
  unfold encrypt_keyStorePromise, decrypt_keyStorePromise. split.
  - destruct (both_stores this);
      [split; [discriminate | reflexivity] | apply createKeyStore_settles].
  - destruct (hw_store this);
      [split; [discriminate | reflexivity] | apply createKeyStore_settles].
Qed.

Ltac loud :=
  unfold hangs_loudly; simpl; split; intros; try discriminate; reflexivity.

Lemma signBody_hangs_loudly (w : World) (this : Encryption) (body : JS.Json) :
  hangs_loudly (signBody w this body).
Proof.
  unfold signBody, signBody_with.
  destruct (clientKeyStore this) as [cs|]; [|loud].
  destruct (first_key cs _) as [k|]; [|loud].
  destruct (JWK_asKey k) as [key|e|e]; try loud.
  destruct (JWS_createSign _ _ _); loud.
Qed.

Lemma encryptBody_hangs_loudly (this : Encryption) (body : Envelope) :
  hangs_loudly (encryptBody this body).
Proof.
  unfold encryptBody, encryptBody_with.
  destruct (hwKeyStore this) as [hs|]; [|loud].
  destruct (first_key hs _) as [k|]; [|loud].
  destruct (JWK_asKey k) as [key|e|e]; try loud.
  destruct (JWE_createEncrypt _ _ _); loud.
Qed.

Lemma decryptBody_hangs_loudly (this : Encryption) (body : Envelope) :
  hangs_loudly (decryptBody this body).
Proof.
  unfold decryptBody, decryptBody_with.
  destruct (clientKeyStore this) as [cs|]; [|loud].
  destruct (first_key cs _) as [k|]; [|loud].
  destruct (JWK_asKey k) as [key|e|e]; try loud.
  destruct (JWE_createDecrypt _ _); loud.
Qed.

Lemma checkSignature_hangs_loudly (w : World) (this : Encryption)
  (body : Envelope) :
  hangs_loudly (checkSignature w this body).
Proof.
  unfold checkSignature, checkSignature_with.
  destruct (hwKeyStore this) as [hs|]; [|loud].
  destruct (first_key hs _) as [k|]; [|loud].
  destruct (JWK_asKey k) as [key|e|e]; try loud.
  destruct (JWS_parse body) as [h|e|e]; try loud.
  destruct (expired_at_dec (getCurrentTime w) h) as [Hexp|Hfresh].
  - rewrite (exp_handler_expired w h Hexp).
    destruct (JWS_check key body); loud.
  - rewrite (exp_handler_fresh w h Hfresh).
    destruct (JWS_check key body); loud.
Qed.

(** X9. The promise of [encrypt], and the one of [decrypt], stays pending
    exactly when an exception left one of the [async] executors of the
    class unhandled: a missing store, a failure of [asKey] where it is
    awaited or called, or an exception of [createSign]. *)
Theorem pending_iff_unhandled (w : World) (this : Encryption) :
  (forall body : JS.Json,
     promise (encrypt w this body) = JS.Pending
     <-> existsb is_unhandled (trace (encrypt w this body)) = true)
  /\ (forall body : Envelope,
     promise (decrypt w this body) = JS.Pending
     <-> existsb is_unhandled (trace (decrypt w this body)) = true).
Proof.
  destruct (keyStorePromise_settles w this) as [[He1 He2] [Hd1 Hd2]].
  split; intros body.
  - unfold encrypt.
    destruct (promise (encrypt_keyStorePromise w this)) as [|[]|e];
      simpl; [congruence| |rewrite He2; split; discriminate].
    pose proof (signBody_hangs_loudly w
                  (after (encrypt_keyStorePromise w this)) body) as Hs.
    destruct (signBody w _ body) as [tr_sign [|signed|e]];
      unfold hangs_loudly in Hs; simpl in *;
      rewrite ?existsb_app, ?He2; simpl.
    + split; [intros _; now apply Hs | reflexivity].
    + pose proof (encryptBody_hangs_loudly
                    (after (encrypt_keyStorePromise w this)) signed) as Hb.
      destruct (encryptBody _ signed) as [tr_enc encrypted];
        unfold hangs_loudly in Hb; simpl in *.
      rewrite ?existsb_app, ?He2. simpl.
      destruct (existsb is_unhandled tr_sign) eqn:E;
        [destruct Hs as [_ Hs]; specialize (Hs eq_refl); discriminate|].
      simpl. exact Hb.
    + destruct (existsb is_unhandled tr_sign) eqn:E;
        [destruct Hs as [_ Hs]; specialize (Hs eq_refl); discriminate|].
      split; discriminate.
  - unfold decrypt.
    destruct (promise (decrypt_keyStorePromise w this)) as [|[]|e];
      simpl; [congruence| |rewrite Hd2; split; discriminate].
    pose proof (decryptBody_hangs_loudly
                  (after (decrypt_keyStorePromise w this)) body) as Hs.
    destruct (decryptBody _ body) as [tr_dec [|plain|e]];
      unfold hangs_loudly in Hs; simpl in *;
      rewrite ?existsb_app, ?Hd2; simpl.
    + split; [intros _; now apply Hs | reflexivity].
    + pose proof (checkSignature_hangs_loudly w
                    (after (decrypt_keyStorePromise w this)) plain) as Hb.
      destruct (checkSignature w _ plain) as [tr_chk verified];
        unfold hangs_loudly in Hb; simpl in *.
      rewrite ?existsb_app, ?Hd2. simpl.
      destruct (existsb is_unhandled tr_dec) eqn:E;
        [destruct Hs as [_ Hs]; specialize (Hs eq_refl); discriminate|].
      simpl. exact Hb.
    + destruct (existsb is_unhandled tr_dec) eqn:E;
        [destruct Hs as [_ Hs]; specialize (Hs eq_refl); discriminate|].
      split; discriminate.
Qed.

(** ** Errors of the two operations *)

Lemma encrypt_both_stores (w : World) (this : Encryption) (body : JS.Json) :
  both_stores this = true ->
  encrypt w this body =
  match signBody w this body with
  | (tr_sign, JS.Fulfilled signedBody) =>
      {| after := this;
         trace := [] ++ tr_sign ++ fst (encryptBody this signedBody);
         promise := snd (encryptBody this signedBody) |}
  | (tr_sign, JS.Rejected e) =>
      {| after := this; trace := [] ++ tr_sign; promise := JS.Rejected e |}
  | (tr_sign, JS.Pending) =>
      {| after := this; trace := [] ++ tr_sign; promise := JS.Pending |}
  end.
Proof.
  intros Hb. unfold encrypt, encrypt_keyStorePromise. rewrite Hb. simpl.
  destruct (signBody w this body) as [tr_sign [|signed|e]]; try reflexivity.
  destruct (encryptBody this signed); reflexivity.
Qed.

Lemma decrypt_hw_store (w : World) (this : Encryption) (body : Envelope) :
  hw_store this = true ->
  decrypt w this body =
  match decryptBody this body with
  | (tr_dec, JS.Fulfilled plaintext) =>
      {| after := this;
         trace := [] ++ tr_dec ++ fst (checkSignature w this plaintext);
         promise := snd (checkSignature w this plaintext) |}
  | (tr_dec, JS.Rejected e) =>
      {| after := this; trace := [] ++ tr_dec; promise := JS.Rejected e |}
  | (tr_dec, JS.Pending) =>
      {| after := this; trace := [] ++ tr_dec; promise := JS.Pending |}
  end.
Proof.
  intros Hb. unfold decrypt, decrypt_keyStorePromise. rewrite Hb. simpl.
  destruct (decryptBody this body) as [tr_dec [|plain|e]]; try reflexivity.
  destruct (checkSignature w this plain); reflexivity.
Qed.

(** X10. With both stores in place, a client key set without a key for the
    signing algorithm makes [encrypt] fail with the message that names the
    signing algorithm, and one without a key for the encryption algorithm
    makes [decrypt] fail with the message that names the encryption
    algorithm, whatever the hyperwallet store holds; neither call touches
    the file system or the network, nor changes the instance.  Each message
    contains its algorithm, and the two messages differ when the two
    algorithms do. *)
Theorem missing_client_key_reported_first (w : World) (this : Encryption)
  (cs hs : KeyStore) :
  clientKeyStore this = Some cs ->
  hwKeyStore this = Some hs ->
  (no_key_for cs (signAlgorithm this) ->
   forall body : JS.Json,
     encrypt w this body =
     {| after := this; trace := [];
        promise := JS.Rejected (no_key_with_algorithm (signAlgorithm this)) |})
  /\ (no_key_for cs (encryptionAlgorithm this) ->
      forall body : Envelope,
        decrypt w this body =
        {| after := this; trace := [];
           promise :=
             JS.Rejected
               (no_key_with_algorithm (encryptionAlgorithm this)) |})
  /\ JS.containsb (signAlgorithm this)
       (no_key_with_algorithm (signAlgorithm this)) = true
  /\ JS.containsb (encryptionAlgorithm this)
       (no_key_with_algorithm (encryptionAlgorithm this)) = true
  /\ (signAlgorithm this <> encryptionAlgorithm this ->
      no_key_with_algorithm (signAlgorithm this)
      <> no_key_with_algorithm (encryptionAlgorithm this)).
Proof.
  intros Hcs Hhs.
  split; [|split; [|split; [|split]]];
    [| |apply provisioning_error_names_algorithm
     |apply provisioning_error_names_algorithm
     |intros Hne Heq; apply Hne;
      now apply provisioning_error_injective];
    intros Hno body.
  - rewrite encrypt_both_stores by (unfold both_stores; now rewrite Hcs, Hhs).
    unfold signBody. rewrite Hcs, (first_key_none _ _ Hno). reflexivity.
  - rewrite decrypt_hw_store by (unfold hw_store; now rewrite Hhs).
    unfold decryptBody. rewrite Hcs, (first_key_none _ _ Hno). reflexivity.
Qed.

(** ** What the methods keep *)

Lemma createKeyStore_stores_kept (w : World) (this : Encryption) :
  stores_kept this (after (createKeyStore w this)).
Proof.
  unfold createKeyStore, stores_kept.
  destruct (readKeySet w (hyperwalletKeySetLocation this))
    as [tr1 [|d1|e1]]; simpl; [split; auto| |split; auto].
  destruct (JWK_asKeyStore d1) as [hs|e|e];
    match goal with
    | |- context [readKeySet w ?loc] =>
        destruct (readKeySet w loc) as [tr2 [|d2|e2]]
    end; simpl;
    try destruct (JWK_asKeyStore d2) as [cs|e'|e']; simpl;
    (split; intros H; simpl; try assumption; discriminate).
Qed.

Lemma stores_kept_refl (this : Encryption) : stores_kept this this.
Proof. split; auto. Qed.

(** X11. [createKeyStore], [createKeyStoreFromJwkSet], [encrypt] and
    [decrypt] never change the two locations, the two algorithms, the
    encryption method or the validity window of the instance, and never
    leave a store absent that was assigned before the call. *)
Theorem configuration_and_stores_kept (w : World) (this : Encryption) :
  (same_configuration (after (createKeyStore w this)) this
   /\ stores_kept this (after (createKeyStore w this)))
  /\ (forall (jwkSetPath : string) (jwkSet : KeySetData),
        same_configuration
          (after (createKeyStoreFromJwkSet this jwkSetPath jwkSet)) this
        /\ stores_kept this
             (after (createKeyStoreFromJwkSet this jwkSetPath jwkSet)))
  /\ (forall body : JS.Json,
        same_configuration (after (encrypt w this body)) this
        /\ stores_kept this (after (encrypt w this body)))
  /\ (forall body : Envelope,
        same_configuration (after (decrypt w this body)) this
        /\ stores_kept this (after (decrypt w this body))).
Proof.
  split; [|split; [|split]].
  - split; [apply createKeyStore_configuration
           | apply createKeyStore_stores_kept].
  - intros jwkSetPath jwkSet. unfold createKeyStoreFromJwkSet.
    destruct (JWK_asKeyStore jwkSet) as [r|e|e]; simpl;
      try (split; [repeat split | apply stores_kept_refl]).
    destruct (jwkSetPath =? clientPrivateKeySetLocation this)%string;
      (split; [repeat split | split; simpl; auto; discriminate]).
  - intros body. destruct (encrypt_after_trace w this body) as [-> _].
    unfold encrypt_keyStorePromise. destruct (both_stores this).
    + split; [repeat split | apply stores_kept_refl].
    + split; [apply createKeyStore_configuration
             | apply createKeyStore_stores_kept].
  - intros body. destruct (decrypt_after_trace w this body) as [-> _].
    unfold decrypt_keyStorePromise. destruct (hw_store this).
    + split; [repeat split | apply stores_kept_refl].
    + split; [apply createKeyStore_configuration
             | apply createKeyStore_stores_kept].
Qed.

(** ** Creating the stores *)

(** X12. [createKeyStore] is fulfilled exactly when both locations are
    read and both documents are accepted by [asKeyStore]; the two stores
    are then the two parsed key sets, and the hyperwallet location was
    read before the client location. *)
Theorem createKeyStore_fulfilled_iff (w : World) (this : Encryption) :
  (promise (createKeyStore w this) = JS.Fulfilled tt
   <-> exists (d1 d2 : KeySetData) (hs cs : KeyStore),
         snd (readKeySet w (hyperwalletKeySetLocation this))
           = JS.Fulfilled d1
         /\ JWK_asKeyStore d1 = JS.Ok hs
         /\ snd (readKeySet w (clientPrivateKeySetLocation this))
            = JS.Fulfilled d2
         /\ JWK_asKeyStore d2 = JS.Ok cs)
  /\ (forall (d1 d2 : KeySetData) (hs cs : KeyStore),
        snd (readKeySet w (hyperwalletKeySetLocation this))
          = JS.Fulfilled d1 ->
        JWK_asKeyStore d1 = JS.Ok hs ->
        snd (readKeySet w (clientPrivateKeySetLocation this))
          = JS.Fulfilled d2 ->
        JWK_asKeyStore d2 = JS.Ok cs ->
        after (createKeyStore w this)
          = set_clientKeyStore cs (set_hwKeyStore hs this)
        /\ trace (createKeyStore w this)
           = fst (readKeySet w (hyperwalletKeySetLocation this))
             ++ fst (readKeySet w (clientPrivateKeySetLocation this))).
Proof.
  assert (Hrun : forall (d1 d2 : KeySetData) (hs cs : KeyStore),
             snd (readKeySet w (hyperwalletKeySetLocation this))
               = JS.Fulfilled d1 ->
             JWK_asKeyStore d1 = JS.Ok hs ->
             snd (readKeySet w (clientPrivateKeySetLocation this))
               = JS.Fulfilled d2 ->
             JWK_asKeyStore d2 = JS.Ok cs ->
             createKeyStore w this =
             {| after := set_clientKeyStore cs (set_hwKeyStore hs this);
                trace :=
                  fst (readKeySet w (hyperwalletKeySetLocation this))
                  ++ fst (readKeySet w (clientPrivateKeySetLocation this));
                promise := JS.Fulfilled tt |}).
  { intros d1 d2 hs cs R1 K1 R2 K2. unfold createKeyStore.
    destruct (readKeySet w (hyperwalletKeySetLocation this)) as [tr1 p1].
    simpl in R1. subst p1. rewrite K1. simpl.
    destruct (readKeySet w (clientPrivateKeySetLocation this)) as [tr2 p2].
    simpl in R2. subst p2. rewrite K2. reflexivity. }
  split; [split|].
  - intros Hok.
    destruct (createKeyStore_fulfilled w this Hok)
      as (d1 & d2 & hs & cs & R1 & R2 & K1 & K2 & _).
    exists d1, d2, hs, cs. rewrite R1, R2. repeat split; assumption.
  - intros (d1 & d2 & hs & cs & R1 & K1 & R2 & K2).
    now rewrite (Hrun d1 d2 hs cs R1 K1 R2 K2).
  - intros d1 d2 hs cs R1 K1 R2 K2.
    now rewrite (Hrun d1 d2 hs cs R1 K1 R2 K2).
Qed.

(** X13. When the hyperwallet document is read but [asKeyStore] does not
    accept it, [createKeyStore] is rejected with the key-store message,
    whatever happens afterwards, and the hyperwallet store is as before;
    the client location is read all the same, and a client document that
    [asKeyStore] accepts is assigned to the client store. *)
Theorem createKeyStore_malformed_hyperwallet_set (w : World)
  (this : Encryption) (d1 : KeySetData) :
  snd (readKeySet w (hyperwalletKeySetLocation this)) = JS.Fulfilled d1 ->
  (forall hs : KeyStore, JWK_asKeyStore d1 <> JS.Ok hs) ->
  promise (createKeyStore w this) = JS.Rejected failed_to_create_keyStore
  /\ hwKeyStore (after (createKeyStore w this)) = hwKeyStore this
  /\ trace (createKeyStore w this)
     = fst (readKeySet w (hyperwalletKeySetLocation this))
       ++ fst (readKeySet w (clientPrivateKeySetLocation this))
  /\ (forall (d2 : KeySetData) (cs : KeyStore),
        snd (readKeySet w (clientPrivateKeySetLocation this))
          = JS.Fulfilled d2 ->
        JWK_asKeyStore d2 = JS.Ok cs ->
        clientKeyStore (after (createKeyStore w this)) = Some cs).
Proof.
  intros R1 Hbad. unfold createKeyStore.
  destruct (readKeySet w (hyperwalletKeySetLocation this)) as [tr1 p1].
  simpl in R1. subst p1.
  assert (Hpair :
            match JWK_asKeyStore d1 with
            | JS.Ok result => (set_hwKeyStore result this, JS.Pending)
            | _ => (this, JS.reject failed_to_create_keyStore
                            (@JS.Pending unit))
            end = (this, JS.Rejected failed_to_create_keyStore)).
  { destruct (JWK_asKeyStore d1) as [hs|e|e]; try reflexivity.
    now destruct (Hbad hs). }
  rewrite Hpair.
  destruct (readKeySet w (clientPrivateKeySetLocation this))
    as [tr2 [|d2|e2]]; simpl.
  - repeat split. intros d2 cs [=].
  - destruct (JWK_asKeyStore d2) as [cs|e|e] eqn:K2; simpl;
      repeat split; intros d cs' [= <-] K; congruence.
  - repeat split. intros d2 cs [=].
Qed.

(** X14. [createKeyStoreFromJwkSet] with a document [asKeyStore] accepts is
    fulfilled with the parsed store and touches neither file system nor
    network.  It assigns the client store when the path is the client
    location and the hyperwallet store for every other path, leaving the
    other store alone; so when the two locations are the same string, the
    call with the hyperwallet location assigns the client store. *)
Theorem createKeyStoreFromJwkSet_assigns (this : Encryption)
  (jwkSetPath : string) (jwkSet : KeySetData) (result : KeyStore) :
  JWK_asKeyStore jwkSet = JS.Ok result ->
  promise (createKeyStoreFromJwkSet this jwkSetPath jwkSet)
    = JS.Fulfilled result
  /\ trace (createKeyStoreFromJwkSet this jwkSetPath jwkSet) = []
  /\ (jwkSetPath = clientPrivateKeySetLocation this ->
      after (createKeyStoreFromJwkSet this jwkSetPath jwkSet)
        = set_clientKeyStore result this)
  /\ (jwkSetPath <> clientPrivateKeySetLocation this ->
      after (createKeyStoreFromJwkSet this jwkSetPath jwkSet)
        = set_hwKeyStore result this)
  /\ (hyperwalletKeySetLocation this = clientPrivateKeySetLocation this ->
      after (createKeyStoreFromJwkSet this
               (hyperwalletKeySetLocation this) jwkSet)
        = set_clientKeyStore result this).
Proof.
  intros K. unfold createKeyStoreFromJwkSet. rewrite K. simpl.
  repeat split.
  - intros ->. now rewrite String.eqb_refl.
  - intros Hne. apply String.eqb_neq in Hne. now rewrite Hne.
  - intros ->. now rewrite String.eqb_refl.
Qed.

Ltac quiet :=
  repeat match goal with
         | |- context [match ?x with _ => _ end] => destruct x
         end; reflexivity.

Lemma signBody_no_io (w : World) (this : Encryption) (body : JS.Json) :
  filter is_io (fst (signBody w this body)) = [].
Proof. unfold signBody, signBody_with. quiet. Qed.

Lemma encryptBody_no_io (this : Encryption) (body : Envelope) :
  filter is_io (fst (encryptBody this body)) = [].
Proof. unfold encryptBody, encryptBody_with. quiet. Qed.

Lemma decryptBody_no_io (this : Encryption) (body : Envelope) :
  filter is_io (fst (decryptBody this body)) = [].
Proof. unfold decryptBody, decryptBody_with. quiet. Qed.

Lemma checkSignature_no_io (w : World) (this : Encryption)
  (body : Envelope) :
  filter is_io (fst (checkSignature w this body)) = [].
Proof. unfold checkSignature, checkSignature_with. quiet. Qed.

Lemma encrypt_offline (w : World) (this : Encryption) (body : JS.Json) :
  both_stores this = true ->
  after (encrypt w this body) = this
  /\ filter is_io (trace (encrypt w this body)) = [].
Proof.
  intros Hb. rewrite (encrypt_both_stores w this body Hb).
  pose proof (signBody_no_io w this body) as Hs.
  destruct (signBody w this body) as [tr_sign [|signed|e]]; simpl in *;
    try (split; [reflexivity | exact Hs]).
  split; [reflexivity|].
  now rewrite filter_app, Hs, encryptBody_no_io.
Qed.

Lemma decrypt_offline (w : World) (this : Encryption) (body : Envelope) :
  hw_store this = true ->
  after (decrypt w this body) = this
  /\ filter is_io (trace (decrypt w this body)) = [].
Proof.
  intros Hb. rewrite (decrypt_hw_store w this body Hb).
  pose proof (decryptBody_no_io this body) as Hs.
  destruct (decryptBody this body) as [tr_dec [|plain|e]]; simpl in *;
    try (split; [reflexivity | exact Hs]).
  split; [reflexivity|].
  now rewrite filter_app, Hs, checkSignature_no_io.
Qed.

(** X15. Stores provisioned by hand.  When the two locations differ, a
    call of [createKeyStoreFromJwkSet] with the client location and one
    with the hyperwallet location put both stores in place; every later
    [encrypt] and [decrypt] then runs without any access to the file system
    or the network and leaves the instance as it is. *)
Theorem provisioned_by_hand (w : World) (this : Encryption)
  (clientSet hwSet : KeySetData) (cs hs : KeyStore) :
  hyperwalletKeySetLocation this <> clientPrivateKeySetLocation this ->
  JWK_asKeyStore clientSet = JS.Ok cs ->
  JWK_asKeyStore hwSet = JS.Ok hs ->
  let this1 :=
    after (createKeyStoreFromJwkSet this
             (clientPrivateKeySetLocation this) clientSet) in
  let this2 :=
    after (createKeyStoreFromJwkSet this1
             (hyperwalletKeySetLocation this) hwSet) in
  clientKeyStore this2 = Some cs
  /\ hwKeyStore this2 = Some hs
  /\ (forall body : JS.Json,
        after (encrypt w this2 body) = this2
        /\ filter is_io (trace (encrypt w this2 body)) = [])
  /\ (forall body : Envelope,
        after (decrypt w this2 body) = this2
        /\ filter is_io (trace (decrypt w this2 body)) = []).
Proof.
  intros Hne Kc Kh this1 this2.
  assert (E1 : this1 = set_clientKeyStore cs this).
  { unfold this1, createKeyStoreFromJwkSet.
    now rewrite Kc, String.eqb_refl. }
  assert (E2 : this2 = set_hwKeyStore hs (set_clientKeyStore cs this)).
  { unfold this2, createKeyStoreFromJwkSet. rewrite Kh, E1. simpl.
    apply String.eqb_neq in Hne. now rewrite Hne. }
  rewrite E2. repeat split.
  - apply encrypt_offline. reflexivity.
  - apply encrypt_offline. reflexivity.
  - apply decrypt_offline. reflexivity.
  - apply decrypt_offline. reflexivity.
Qed.

(** X16. [checkUrlIsValid] issues one GET and nothing else, and answers
    true exactly when the request is answered with status 200; a URL for
    which it answers true, and which is not the name of an existing file,
    is one [readKeySet] resolves. *)
Theorem checkUrlIsValid_probe (w : World) (url : string) :
  fst (checkUrlIsValid w url) = [HttpGet url]
  /\ (snd (checkUrlIsValid w url) = true
      <-> exists response : Response,
            request w url = Some response /\ status response = 200%Z)
  /\ (snd (checkUrlIsValid w url) = true ->
      fs_existsSync w url = false ->
      exists data : KeySetData,
        snd (readKeySet w url) = JS.Fulfilled data).
Proof.
  unfold checkUrlIsValid, readKeySet.
  destruct (request w url) as [response|]; simpl.
  - split; [reflexivity|]. split.
    + split.
      * intros H. exists response. split; [reflexivity|].
        now apply Z.eqb_eq.
      * intros (r & [= <-] & Hs). now apply Z.eqb_eq.
    + intros _ ->. eexists. reflexivity.
  - split; [reflexivity|]. split.
    + split; [discriminate|]. intros (r & Habs & _). discriminate.
    + discriminate.
Qed.

(** ** The key-store promise of the two operations *)

(** X17. A [decrypt] on an instance without a hyperwallet store creates
    both stores, also a client store that was assigned before: when the
    creation succeeds, the call fetches each key set once, the hyperwallet
    one first, both stores hold what was fetched, and later calls of
    [decrypt] and [encrypt] fetch nothing. *)
Theorem decrypt_creates_both_stores (w w' : World) (this : Encryption)
  (body : Envelope) :
  hw_store this = false ->
  promise (createKeyStore w this) = JS.Fulfilled tt ->
  (exists (f_hw f_client : Event) (hs cs : KeyStore),
     filter is_fetch (trace (decrypt w this body)) = [f_hw; f_client]
     /\ is_fetch_of (hyperwalletKeySetLocation this) f_hw = true
     /\ is_fetch_of (clientPrivateKeySetLocation this) f_client = true
     /\ hwKeyStore (after (decrypt w this body)) = Some hs
     /\ clientKeyStore (after (decrypt w this body)) = Some cs
     /\ (exists d1 : KeySetData,
           snd (readKeySet w (hyperwalletKeySetLocation this))
             = JS.Fulfilled d1 /\ JWK_asKeyStore d1 = JS.Ok hs)
     /\ (exists d2 : KeySetData,
           snd (readKeySet w (clientPrivateKeySetLocation this))
             = JS.Fulfilled d2 /\ JWK_asKeyStore d2 = JS.Ok cs))
  /\ (forall body' : Envelope,
        filter is_fetch
          (trace (decrypt w' (after (decrypt w this body)) body')) = []
        /\ after (decrypt w' (after (decrypt w this body)) body')
           = after (decrypt w this body))
  /\ (forall body' : JS.Json,
        filter is_fetch
          (trace (encrypt w' (after (decrypt w this body)) body')) = []
        /\ after (encrypt w' (after (decrypt w this body)) body')
           = after (decrypt w this body)).
Proof.
  intros Hb Hok.
  destruct (decrypt_after_trace w this body) as [Ha Ht].
  assert (Hks : decrypt_keyStorePromise w this = createKeyStore w this)
    by (unfold decrypt_keyStorePromise; now rewrite Hb).
  rewrite Hks in Ha, Ht.
  destruct (createKeyStore_fulfilled w this Hok)
    as (d1 & d2 & hs & cs & R1 & R2 & K1 & K2 & Hafter & Htrace).
  assert (Hboth : both_stores (after (decrypt w this body)) = true)
    by (rewrite Ha, Hafter; reflexivity).
  split; [|split].
  - destruct (readKeySet_fetches_once w (hyperwalletKeySetLocation this))
      as (f1 & Hf1 & Hloc1).
    destruct (readKeySet_fetches_once w (clientPrivateKeySetLocation this))
      as (f2 & Hf2 & Hloc2).
    exists f1, f2, hs, cs.
    rewrite Ht, Htrace, filter_app, Hf1, Hf2, Ha, Hafter.
    repeat split; try assumption.
    + exists d1. rewrite R1. split; [reflexivity | assumption].
    + exists d2. rewrite R2. split; [reflexivity | assumption].
  - intros body'.
    destruct (decrypt_after_trace w' (after (decrypt w this body)) body')
      as [Ha' Ht'].
    rewrite Ha', Ht'. unfold decrypt_keyStorePromise.
    rewrite (both_stores_hw_store _ Hboth). split; reflexivity.
  - intros body'.
    destruct (encrypt_after_trace w' (after (decrypt w this body)) body')
      as [Ha' Ht'].
    rewrite Ha', Ht'. unfold encrypt_keyStorePromise.
    rewrite Hboth. split; reflexivity.
Qed.

(** X18. When [createKeyStore] is rejected, an [encrypt] that lacks a
    store, and a [decrypt] that lacks the hyperwallet store, are rejected
    with the same message, do nothing beyond what [createKeyStore] did, and
    leave the instance as [createKeyStore] left it. *)
Theorem key_store_rejection_passed_on (w : World) (this : Encryption)
  (e : string) :
  promise (createKeyStore w this) = JS.Rejected e ->
  (both_stores this = false ->
   forall body : JS.Json,
     encrypt w this body =
     {| after := after (createKeyStore w this);
        trace := trace (createKeyStore w this);
        promise := JS.Rejected e |})
  /\ (hw_store this = false ->
      forall body : Envelope,
        decrypt w this body =
        {| after := after (createKeyStore w this);
           trace := trace (createKeyStore w this);
           promise := JS.Rejected e |}).
Proof.
  intros Hrej. split; intros Hb body.
  - unfold encrypt, encrypt_keyStorePromise. rewrite Hb, Hrej. reflexivity.
  - unfold decrypt, decrypt_keyStorePromise. rewrite Hb, Hrej. reflexivity.
Qed.

(** ** The two codecs, one after the other *)



(** ** Every way to fail *)

Lemma signBody_rejected (w : World) (this : Encryption) (body : JS.Json)
  (e : string) :
  snd (signBody w this body) = JS.Rejected e ->
  e = no_key_with_algorithm (signAlgorithm this)
  \/ exists key : Key, e = failed_to_sign (key_kid key).
Proof.
  unfold signBody, signBody_with.
  destruct (clientKeyStore this) as [cs|]; [|discriminate].
  destruct (first_key cs _) as [k|]; [|intros [= <-]; now left].
  destruct (JWK_asKey k) as [key|e'|e']; try discriminate.
  destruct (JWS_createSign _ _ _); try discriminate.
  intros [= <-]. right. now exists key.
Qed.

Lemma encryptBody_rejected (this : Encryption) (body : Envelope)
  (e : string) :
  snd (encryptBody this body) = JS.Rejected e ->
  e = no_key_with_algorithm (encryptionAlgorithm this)
  \/ (exists key : Key, e = failed_to_encrypt (key_kid key))
  \/ (exists rawKey : Key, JWK_asKey rawKey = JS.Rejects e).
Proof.
  unfold encryptBody, encryptBody_with.
  destruct (hwKeyStore this) as [hs|]; [|discriminate].
  destruct (first_key hs _) as [k|]; [|intros [= <-]; now left].
  destruct (JWK_asKey k) as [key|e'|e'] eqn:Has; try discriminate.
  - destruct (JWE_createEncrypt _ _ _); try discriminate;
      intros [= <-]; right; left; now exists key.
  - intros [= <-]. right. right. now exists k.
Qed.

Lemma decryptBody_rejected (this : Encryption) (body : Envelope)
  (e : string) :
  snd (decryptBody this body) = JS.Rejected e ->
  e = no_key_with_algorithm (encryptionAlgorithm this)
  \/ (exists key : Key, e = failed_to_decrypt (key_kid key))
  \/ (exists rawKey : Key, JWK_asKey rawKey = JS.Rejects e)
  \/ (exists key : Key, JWE_createDecrypt key body = JS.Throws e).
Proof.
  unfold decryptBody, decryptBody_with.
  destruct (clientKeyStore this) as [cs|]; [|discriminate].
  destruct (first_key cs _) as [k|]; [|intros [= <-]; now left].
  destruct (JWK_asKey k) as [key|e'|e'] eqn:Has; try discriminate.
  - destruct (JWE_createDecrypt key body) eqn:Hd; try discriminate;
      intros [= <-].
    + right; left; now exists key.
    + right; right; right; now exists key.
  - intros [= <-]. right. right. left. now exists k.
Qed.

Lemma checkSignature_rejected (w : World) (this : Encryption)
  (body : Envelope) (e : string) :
  snd (checkSignature w this body) = JS.Rejected e ->
  e = no_key_with_algorithm (signAlgorithm this)
  \/ e = signature_expired
  \/ (exists key : Key, e = failed_to_verify (key_kid key))
  \/ (exists rawKey : Key, JWK_asKey rawKey = JS.Rejects e)
  \/ JWS_parse body = JS.Throws e.
Proof.
  unfold checkSignature, checkSignature_with.
  destruct (hwKeyStore this) as [hs|]; [|discriminate].
  destruct (first_key hs _) as [k|]; [|intros [= <-]; now left].
  destruct (JWK_asKey k) as [key|e'|e'] eqn:Has; try discriminate.
  - destruct (JWS_parse body) as [h|e'|e'] eqn:Hp.
    + destruct (expired_at_dec (getCurrentTime w) h) as [Hexp|Hfresh].
      * rewrite (exp_handler_expired w h Hexp).
        destruct (JWS_check key body); intros [= <-]; right; now left.
      * rewrite (exp_handler_fresh w h Hfresh).
        destruct (JWS_check key body); try discriminate.
        intros [= <-]. right; right; left. now exists key.
    + intros [= <-]. right; right; left. now exists key.
    + intros [= <-]. now repeat right.
  - intros [= <-]. right; right; right; left. now exists k.
Qed.

(** X22. Every rejection of [encrypt] and of [decrypt] on an instance with
    both stores carries one of the messages of the class (no key for the
    algorithm, failed to sign, encrypt, decrypt or verify with a key id,
    signature expired) or a message of the library itself, from a rejected
    [asKey], a [decrypt] that threw or a [verify] that threw. *)
Theorem rejections_with_both_stores (w : World) (this : Encryption)
  (e : string) :
  both_stores this = true ->
  (forall body : JS.Json,
     promise (encrypt w this body) = JS.Rejected e ->
     e = no_key_with_algorithm (signAlgorithm this)
     \/ e = no_key_with_algorithm (encryptionAlgorithm this)
     \/ (exists key : Key, e = failed_to_sign (key_kid key))
     \/ (exists key : Key, e = failed_to_encrypt (key_kid key))
     \/ (exists rawKey : Key, JWK_asKey rawKey = JS.Rejects e))
  /\ (forall body : Envelope,
     promise (decrypt w this body) = JS.Rejected e ->
     e = no_key_with_algorithm (encryptionAlgorithm this)
     \/ e = no_key_with_algorithm (signAlgorithm this)
     \/ e = signature_expired
     \/ (exists key : Key, e = failed_to_decrypt (key_kid key))
     \/ (exists key : Key, e = failed_to_verify (key_kid key))
     \/ (exists rawKey : Key, JWK_asKey rawKey = JS.Rejects e)
     \/ (exists key : Key, JWE_createDecrypt key body = JS.Throws e)
     \/ (exists plain : Envelope, JWS_parse plain = JS.Throws e)).
Proof.
  intros Hb. split; intros body.
  - rewrite (encrypt_both_stores w this body Hb).
    pose proof (signBody_rejected w this body e) as Hs.
    destruct (signBody w this body) as [tr_sign [|signed|e0]]; simpl in *;
      try discriminate.
    + intros Hrej.
      destruct (encryptBody_rejected this signed e Hrej)
        as [->|[H|H]]; auto 6.
    + intros [= ->]. destruct (Hs eq_refl) as [->|H]; auto 6.
  - rewrite (decrypt_hw_store w this body (both_stores_hw_store this Hb)).
    pose proof (decryptBody_rejected this body e) as Hd.
    destruct (decryptBody this body) as [tr_dec [|plain|e0]]; simpl in *;
      try discriminate.
    + intros Hrej.
      destruct (checkSignature_rejected w this plain e Hrej)
        as [->|[->|[H|[H|H]]]]; auto 10.
      repeat right. now exists plain.
    + intros [= ->]. destruct (Hd eq_refl) as [->|[H|[H|H]]]; auto 10.
Qed.

(** X23. Every rejection of [createKeyStore] carries the key-store message
    of the class, the wrong-location message for one of the two locations,
    the message of a failed file read at one of the two locations, or the
    message of an exception of [asKeyStore]. *)
Theorem createKeyStore_rejections (w : World) (this : Encryption)
  (e : string) :
  promise (createKeyStore w this) = JS.Rejected e ->
  e = failed_to_create_keyStore
  \/ e = wrong_location (hyperwalletKeySetLocation this)
  \/ e = wrong_location (clientPrivateKeySetLocation this)
  \/ fs_readFile w (hyperwalletKeySetLocation this) = inr e
  \/ fs_readFile w (clientPrivateKeySetLocation this) = inr e
  \/ (exists jwkSet : KeySetData, JWK_asKeyStore jwkSet = JS.Throws e).
Proof.
  assert (Hread : forall loc msg,
             snd (readKeySet w loc) = JS.Rejected msg ->
             msg = wrong_location loc \/ fs_readFile w loc = inr msg).
  { intros loc msg. unfold readKeySet.
    destruct (fs_existsSync w loc).
    - destruct (fs_readFile w loc); simpl; [discriminate|].
      intros [= ->]. now right.
    - destruct (request w loc); simpl; [discriminate|].
      intros [= <-]. now left. }
  unfold createKeyStore.
  pose proof (Hread (hyperwalletKeySetLocation this)) as H1.
  pose proof (Hread (clientPrivateKeySetLocation this)) as H2.
  destruct (readKeySet w (hyperwalletKeySetLocation this))
    as [tr1 [|d1|e1]]; simpl in *; try discriminate.
  - assert (Hloc : forall r : KeyStore,
               clientPrivateKeySetLocation (set_hwKeyStore r this)
               = clientPrivateKeySetLocation this) by reflexivity.
    destruct (JWK_asKeyStore d1) as [hs|e'|e']; try rewrite Hloc;
      destruct (readKeySet w (clientPrivateKeySetLocation this))
        as [tr2 [|d2|e2]]; simpl in *; try discriminate;
      try (intros [= <-]; now left);
      try (intros [= <-]; destruct (H2 _ eq_refl) as [->|H]; auto 6);
      destruct (JWK_asKeyStore d2) as [cs|e''|e''] eqn:K2; simpl;
      try discriminate; try (intros [= <-]; now left);
      intros [= <-]; repeat right; now exists d2.
  - intros [= <-]. destruct (H1 _ eq_refl) as [->|H]; auto 6.
Qed.

End Further.

(** ** The further properties on the concrete machine *)

Section ConcreteFurther.
Existing Instance Toy.jose.

Lemma expiry_is_window_after_now_witness :
  getSignatureExpirationTime (Toy.world 1499) Toy.ready = JS.Int 301
  /\ getSignatureExpirationTime (Toy.world 0) Sample.beyond_dates = JS.NaN
  /\ (getCurrentTime (Toy.world 0) <= getCurrentTime (Toy.world 1499))%Z.
Proof.
  split; [|split].
  - apply (proj1 (expiry_is_window_after_now (Toy.world 1499) Toy.ready)).
    discriminate.
  - apply (proj1 (proj2 (expiry_is_window_after_now (Toy.world 0)
                           Sample.beyond_dates))).
    intros H. apply H. reflexivity.
  - apply (proj2 (proj2 (proj2
             (expiry_is_window_after_now (Toy.world 0) Toy.ready)))
             (Toy.world 1499)).
    discriminate.
Defined.

Lemma freshness_window_witness :
  exp_handler (Toy.world 300000)
    (header_of_sign (signHeader (Toy.world 0) Toy.ready Toy.client_sig))
    (@JS.Pending unit) = JS.Pending
  /\ exp_handler (Toy.world 301000)
       (header_of_sign (signHeader (Toy.world 0) Toy.ready Toy.client_sig))
       (@JS.Pending unit) = JS.Rejected signature_expired.
Proof.
  assert (Hr : JS.time_value
                 (Date_getTime (Toy.world 0)
                  + jwsExpirationMinutes Toy.ready * 60000))
    by discriminate.
  split.
  - apply (proj1 (proj2 (proj1 (freshness_window (Toy.world 0)
                                  (Toy.world 300000)
                                  Toy.ready Toy.client_sig) Hr))).
    discriminate.
  - apply (proj2 (proj2 (proj1 (freshness_window (Toy.world 0)
                                  (Toy.world 301000)
                                  Toy.ready Toy.client_sig) Hr))).
    discriminate.
Defined.

Lemma checkSignature_fulfilled_witness :
  exists (hs : KeyStore) (rawKey verifier : Key) (h : JwsHeader),
    hwKeyStore Toy.ready = Some hs
    /\ first_in_document_order hs (signAlgorithm Toy.ready) rawKey
    /\ JWK_asKey rawKey = JS.Ok verifier
    /\ JWS_parse Sample.signed_amount = JS.Ok h
    /\ ~ expired_at (getCurrentTime (Toy.world 0)) h
    /\ JWS_check verifier Sample.signed_amount
       = Some {| header :=
                   {| header_alg := "RS256"; header_kid := "client-sig";
                      header_crit := ["exp"]; header_exp := Some 300%Z |};
                 payload := Toy.stringify Toy.amount_100;
                 key := Toy.hw_sig |}.
Proof.
  apply (checkSignature_fulfilled (Toy.world 0) Toy.ready
           Sample.signed_amount).
  reflexivity.
Defined.

Lemma encrypt_fulfilled_witness :
  exists (cs hs : KeyStore) (rawS signer rawP public : Key)
         (signed : Envelope),
    clientKeyStore (after (encrypt (Toy.world 0) Toy.fresh Toy.amount_100))
      = Some cs
    /\ hwKeyStore (after (encrypt (Toy.world 0) Toy.fresh Toy.amount_100))
       = Some hs
    /\ first_in_document_order cs (signAlgorithm Toy.fresh) rawS
    /\ JWK_asKey rawS = JS.Ok signer
    /\ JWS_createSign (signHeader (Toy.world 0) Toy.fresh signer) signer
         (JSON_stringify Toy.amount_100) = JS.Ok signed
    /\ first_in_document_order hs (encryptionAlgorithm Toy.fresh) rawP
    /\ JWK_asKey rawP = JS.Ok public
    /\ JWE_createEncrypt (encryptionHeader Toy.fresh public) public signed
       = JS.Ok Sample.sealed_amount.
Proof.
  apply (encrypt_fulfilled (Toy.world 0) Toy.fresh Toy.amount_100
           Sample.sealed_amount).
  reflexivity.
Defined.

Lemma decrypt_fulfilled_witness :
  exists (cs hs : KeyStore) (rawD private rawV verifier : Key)
         (plain : Envelope) (h : JwsHeader),
    clientKeyStore (after (decrypt (Toy.world 0) Toy.fresh
                             Sample.sealed_amount)) = Some cs
    /\ hwKeyStore (after (decrypt (Toy.world 0) Toy.fresh
                            Sample.sealed_amount)) = Some hs
    /\ first_in_document_order cs (encryptionAlgorithm Toy.fresh) rawD
    /\ JWK_asKey rawD = JS.Ok private
    /\ JWE_createDecrypt private Sample.sealed_amount = JS.Ok plain
    /\ first_in_document_order hs (signAlgorithm Toy.fresh) rawV
    /\ JWK_asKey rawV = JS.Ok verifier
    /\ JWS_parse plain = JS.Ok h
    /\ ~ expired_at (getCurrentTime (Toy.world 0)) h
    /\ JWS_check verifier plain
       = Some {| header :=
                   {| header_alg := "RS256"; header_kid := "client-sig";
                      header_crit := ["exp"]; header_exp := Some 300%Z |};
                 payload := Toy.stringify Toy.amount_100;
                 key := Toy.hw_sig |}.
Proof.
  apply (decrypt_fulfilled (Toy.world 0) Toy.fresh Sample.sealed_amount).
  reflexivity.
Defined.

Lemma pending_iff_unhandled_witness :
  promise (decrypt (Toy.world 0) Sample.hw_only Toy.Garbage) = JS.Pending.
Proof.
  apply (proj2 (pending_iff_unhandled (Toy.world 0) Sample.hw_only)
           Toy.Garbage).
  reflexivity.
Defined.

Lemma missing_client_key_reported_first_witness :
  encrypt (Toy.world 0) Toy.es256_only Toy.amount_100 =
  {| after := Toy.es256_only; trace := [];
     promise := JS.Rejected (no_key_with_algorithm "RS256") |}.
Proof.
  apply (proj1 (missing_client_key_reported_first (Toy.world 0)
                  Toy.es256_only Toy.es256_keys Toy.es256_keys
                  eq_refl eq_refl)).
  intros k [<-|[]]. discriminate.
Defined.

Lemma createKeyStore_fulfilled_iff_witness :
  after (createKeyStore (Toy.world 0) Toy.fresh) = Toy.ready
  /\ trace (createKeyStore (Toy.world 0) Toy.fresh)
     = [FsExists "/keys/hw.json"; FsReadFile "/keys/hw.json";
        FsExists "/keys/client.json"; FsReadFile "/keys/client.json"].
Proof.
  apply (proj2 (createKeyStore_fulfilled_iff (Toy.world 0) Toy.fresh)
           (KeySetText "HYPERWALLET-JWKS") (KeySetText "CLIENT-JWKS")
           Toy.hyperwallet_keys Toy.client_keys
           eq_refl eq_refl eq_refl eq_refl).
Defined.

Lemma createKeyStore_malformed_hyperwallet_set_witness :
  promise (createKeyStore (Toy.world 0) Sample.broken_hw)
    = JS.Rejected failed_to_create_keyStore
  /\ clientKeyStore (after (createKeyStore (Toy.world 0) Sample.broken_hw))
     = Some Toy.client_keys.
Proof.
  destruct (createKeyStore_malformed_hyperwallet_set (Toy.world 0)
              Sample.broken_hw (KeySetText "{") eq_refl)
    as (Hrej & _ & _ & Hclient).
  - intros hs. discriminate.
  - split; [exact Hrej|].
    apply (Hclient (KeySetText "CLIENT-JWKS") Toy.client_keys
             eq_refl eq_refl).
Defined.

Lemma createKeyStoreFromJwkSet_assigns_witness :
  after (createKeyStoreFromJwkSet Toy.fresh "/keys/hw.json"
           (KeySetText "HYPERWALLET-JWKS"))
  = Sample.hw_only.
Proof.
  apply (createKeyStoreFromJwkSet_assigns Toy.fresh "/keys/hw.json"
           (KeySetText "HYPERWALLET-JWKS") Toy.hyperwallet_keys eq_refl).
  discriminate.
Defined.

Lemma provisioned_by_hand_witness :
  filter is_io
    (trace (encrypt (Toy.world 0)
              (after (createKeyStoreFromJwkSet
                        (after (createKeyStoreFromJwkSet Toy.fresh
                                  "/keys/client.json"
                                  (KeySetText "CLIENT-JWKS")))
                        "/keys/hw.json" (KeySetText "HYPERWALLET-JWKS")))
              Toy.amount_100)) = [].
Proof.
  assert (Hne : hyperwalletKeySetLocation Toy.fresh
                <> clientPrivateKeySetLocation Toy.fresh) by discriminate.
  apply (proj1 (proj2 (proj2
           (provisioned_by_hand (Toy.world 0) Toy.fresh
              (KeySetText "CLIENT-JWKS") (KeySetText "HYPERWALLET-JWKS")
              Toy.client_keys Toy.hyperwallet_keys Hne eq_refl eq_refl)))
           Toy.amount_100).
Defined.

Lemma checkUrlIsValid_probe_witness :
  exists data : KeySetData,
    snd (readKeySet (Toy.world 0) "https://keys.test/hw")
      = JS.Fulfilled data.
Proof.
  apply (proj2 (proj2 (checkUrlIsValid_probe (Toy.world 0)
                         "https://keys.test/hw")) eq_refl eq_refl).
Defined.

Lemma decrypt_creates_both_stores_witness :
  filter is_fetch
    (trace (encrypt (Toy.world 1000)
              (after (decrypt (Toy.world 0) Toy.fresh
                        Sample.sealed_amount)) Toy.amount_100)) = []
  /\ after (encrypt (Toy.world 1000)
              (after (decrypt (Toy.world 0) Toy.fresh
                        Sample.sealed_amount)) Toy.amount_100)
     = after (decrypt (Toy.world 0) Toy.fresh Sample.sealed_amount).
Proof.
  apply (proj2 (proj2 (decrypt_creates_both_stores (Toy.world 0)
                         (Toy.world 1000) Toy.fresh Sample.sealed_amount
                         eq_refl eq_refl)) Toy.amount_100).
Defined.

Lemma key_store_rejection_passed_on_witness :
  promise (encrypt (Toy.world 0) Toy.no_client Toy.amount_100)
  = JS.Rejected (wrong_location "/nope").
Proof.
  rewrite (proj1 (key_store_rejection_passed_on (Toy.world 0) Toy.no_client
                    (wrong_location "/nope") eq_refl)
             eq_refl Toy.amount_100).
  reflexivity.
Defined.



Lemma rejections_with_both_stores_witness :
  no_key_with_algorithm "RS256"
    = no_key_with_algorithm (signAlgorithm Toy.es256_only)
  \/ no_key_with_algorithm "RS256"
     = no_key_with_algorithm (encryptionAlgorithm Toy.es256_only)
  \/ (exists key : Key, no_key_with_algorithm "RS256"
                        = failed_to_sign (key_kid key))
  \/ (exists key : Key, no_key_with_algorithm "RS256"
                        = failed_to_encrypt (key_kid key))
  \/ (exists rawKey : Key,
        JWK_asKey rawKey = JS.Rejects (no_key_with_algorithm "RS256")).
Proof.
  apply (proj1 (rejections_with_both_stores (Toy.world 0) Toy.es256_only
                  (no_key_with_algorithm "RS256") eq_refl)
           Toy.amount_100).
  reflexivity.
Defined.

Lemma createKeyStore_rejections_witness :
  wrong_location "/nope" = failed_to_create_keyStore
  \/ wrong_location "/nope"
     = wrong_location (hyperwalletKeySetLocation Toy.no_client)
  \/ wrong_location "/nope"
     = wrong_location (clientPrivateKeySetLocation Toy.no_client)
  \/ fs_readFile (Toy.world 0) (hyperwalletKeySetLocation Toy.no_client)
     = inr (wrong_location "/nope")
  \/ fs_readFile (Toy.world 0) (clientPrivateKeySetLocation Toy.no_client)
     = inr (wrong_location "/nope")
  \/ (exists jwkSet : KeySetData,
        JWK_asKeyStore jwkSet = JS.Throws (wrong_location "/nope")).
Proof.
  apply (createKeyStore_rejections (Toy.world 0) Toy.no_client
           (wrong_location "/nope")).
  reflexivity.
Defined.

End ConcreteFurther.

Example base64_sample :
  Base64Url.encode (Base64Url.decode "eyJhIjoxfQ") = "eyJhIjoxfQ"
  /\ base64Encode (base64Decode "eyJhIjoxfQ.AQID._-8") = "eyJhIjoxfQ.AQID._-8"
  /\ base64Encode (base64Decode "QR") = "QQ".
Proof. repeat split; vm_compute; reflexivity. Qed.
